(** * Leaf AI backend: the analyze handler of [backend/main.py]

    A shallow embedding of the request pipeline of [main.py] (validate,
    persist, encode, call the upstream model, extract the answer, clean it,
    answer) and the properties of it that the specification states.

    Conventions of the embedding.
    - A Python [str] is a list of characters, a character being a code point
      below 256 ([ascii]); the tables of whitespace, word characters and
      lower-casing are Python's tables on that range.
    - [bytes] are lists of [Byte.byte].
    - Python [int]s are [Z].
    - A raised exception is the left injection of a sum; the handler runs in
      a small monad that threads the trace of its side effects.
    - The file system, the clock and the upstream are a record of answers
      ([World]); the log lines of the handler are left out. *)

From Stdlib Require Import List Ascii String ZArith NArith Lia Bool Arith.
From Stdlib Require Import Floats.SpecFloat Numbers.DecimalString.
From Stdlib Require DecimalFacts DecimalPos DecimalN.
Import ListNotations.

Set Implicit Arguments.

(** ** Python strings *)

Module Str.

(** The strings of this development are the texts whose code points are
    all below 256. Python strings also hold the code points from 256 on;
    nothing is stated here about requests, payloads or texts that hold
    one. Two things happen only there: under IGNORECASE a letter of a
    pattern also matches a few characters above 255 (U+0130 and U+0131
    match [i], U+017F matches [s], U+212A matches [k]), and a lone
    surrogate (U+D800 to U+DFFF) cannot be encoded as UTF-8. *)
Definition str := list ascii.

(** A string literal. *)
Definition lit (s : string) : str := list_ascii_of_string s.

Definition code (c : ascii) : N := N_of_ascii c.

Definition between (lo hi n : N) : bool := ((lo <=? n) && (n <=? hi))%N.

(** [str.isspace] on one character, which is also [\s] of [re]:
    TAB, LF, VT, FF, CR, FS, GS, RS, US, SPACE, NEL and NBSP. *)
Definition isspace (c : ascii) : bool :=
  let n := code c in
  between 9 13 n || between 28 32 n || (n =? 133)%N || (n =? 160)%N.

(** [\w] of [re]: [str.isalnum] or the underscore. *)
Definition isword (c : ascii) : bool :=
  let n := code c in
  between 48 57 n || between 65 90 n || (n =? 95)%N || between 97 122 n
  || (n =? 170)%N || between 178 179 n || (n =? 181)%N || between 185 186 n
  || between 188 190 n || between 192 214 n || between 216 246 n
  || between 248 255 n.

(** Simple lower-casing of a character, as [re] applies it under
    IGNORECASE: A-Z and the upper-case letters of 192..222 (215 is the
    multiplication sign) move up by 32. *)
Definition lower (c : ascii) : ascii :=
  let n := code c in
  if between 65 90 n || (between 192 222 n && negb (n =? 215)%N)
  then ascii_of_N (n + 32) else c.

(** Truth value of a string: non-empty. *)
Definition truthy (s : str) : bool :=
  match s with [] => false | _ :: _ => true end.

Fixpoint lstrip (s : str) : str :=
  match s with
  | c :: s' => if isspace c then lstrip s' else s
  | [] => []
  end.

Definition rstrip (s : str) : str := rev (lstrip (rev s)).

(** [s.strip()] without argument. *)
Definition strip (s : str) : str := rstrip (lstrip s).

Definition eqb (a b : str) : bool :=
  if list_eq_dec ascii_dec a b then true else false.

Definition LF : ascii := ascii_of_N 10.

End Str.

Import Str.

(** ** Prompt resolution (line 90) *)

Definition DEFAULT_PROMPT : str :=
  lit "Analyze this leaf image for potential diseases and provide suggestions.".

(** [user_text = prompt.strip() if prompt else "Analyze ..."] *)
Definition user_text (prompt : str) : str :=
  if truthy prompt then strip prompt else DEFAULT_PROMPT.

(** ** Regular expressions: the fragment of [re] that [main.py] uses

    The matcher is a backtracking matcher written as a list of successes:
    [exec r c] lists, in the order in which [re] tries them, the positions
    at which a match of [r] started at position [c] can end. The first one
    that the caller accepts is the match that [re] reports. *)

Module Re.

(** Items that match exactly one character. *)
Inductive item :=
| Chr (c : ascii)      (* a literal character *)
| Dot                  (* [.] *)
| Space.               (* [\s] *)

Inductive regex :=
| One (k : item)
| AtBegin                               (* [^] without MULTILINE *)
| AtEnd                                 (* [$] without MULTILINE *)
| Boundary                              (* [\b] *)
| Cat (r1 r2 : regex)
| Alt (r1 r2 : regex)                   (* [r1|r2] *)
| Repeat (greedy : bool) (lo : nat) (k : item)
    (* [k{lo,}] when greedy, [k{lo,}?] when not: [*] is [lo = 0] and
       [+] is [lo = 1] *)
| Eps.                                  (* the empty pattern *)

Record flags := { ignorecase : bool; dotall : bool }.

(** A position in the subject: the character before it ([None] at the
    beginning of the subject) and the text that follows. *)
Definition pos := (option ascii * str)%type.

Definition after (c : pos) : str := snd c.

Section Matcher.

Variable fl : flags.

Definition accepts (k : item) (x : ascii) : bool :=
  match k with
  | Chr c =>
      if ignorecase fl then Ascii.eqb (lower x) (lower c) else Ascii.eqb x c
  | Dot => dotall fl || negb (Ascii.eqb x LF)
  | Space => isspace x
  end.

Definition word_before (c : pos) : bool :=
  match fst c with Some x => isword x | None => false end.

Definition word_after (c : pos) : bool :=
  match snd c with x :: _ => isword x | [] => false end.

(** The positions reached from [(prev, rest)] by consuming 0, 1, 2, ...
    characters that [k] accepts. *)
Fixpoint runs (k : item) (prev : option ascii) (rest : str) : list pos :=
  (prev, rest) ::
  match rest with
  | x :: rest' => if accepts k x then runs k (Some x) rest' else []
  | [] => []
  end.

Fixpoint exec (r : regex) (c : pos) : list pos :=
  match r with
  | One k =>
      match snd c with
      | x :: rest' => if accepts k x then [(Some x, rest')] else []
      | [] => []
      end
  | AtBegin => match fst c with None => [c] | Some _ => [] end
  | AtEnd =>
      match snd c with
      | [] => [c]
      | [x] => if Ascii.eqb x LF then [c] else []
      | _ => []
      end
  | Boundary => if xorb (word_before c) (word_after c) then [c] else []
  | Cat r1 r2 => flat_map (exec r2) (exec r1 c)
  | Alt r1 r2 => exec r1 c ++ exec r2 c
  | Repeat greedy lo k =>
      let ends := skipn lo (runs k (fst c) (snd c)) in
      if greedy then rev ends else ends
  | Eps => [c]
  end.

(** A match starting at [c]; with [must_advance] an empty match is not
    accepted (the matcher backtracks into a longer one). *)
Definition match_at (r : regex) (must_advance : bool) (c : pos) : option pos :=
  find (fun c' => negb must_advance
                  || (List.length (after c') <? List.length (after c)))
       (exec r c).

(** [search]: the leftmost match at or after the position, with the text
    skipped before it. [must_advance] only holds for the first position
    tried. *)
Fixpoint search (r : regex) (must_advance : bool) (prev : option ascii)
    (rest : str) : option (str * pos) :=
  match match_at r must_advance (prev, rest) with
  | Some c' => Some ([], c')
  | None =>
      match rest with
      | [] => None
      | x :: rest' =>
          match search r false (Some x) rest' with
          | Some (skipped, c') => Some (x :: skipped, c')
          | None => None
          end
      end
  end.

(** The loop of [re.sub]: search, copy the text before the match, put the
    replacement, and go on from the end of the match; after an empty match
    the next match must advance. Each round but an empty first match moves
    forward, so [2 * len + 2] rounds are never used up ([sub_fuel_enough]). *)
Fixpoint sub_loop (fuel : nat) (r : regex) (repl : str) (must_advance : bool)
    (prev : option ascii) (rest : str) : str :=
  match fuel with
  | O => rest
  | S fuel' =>
      match search r must_advance prev rest with
      | None => rest
      | Some (skipped, c') =>
          let empty :=
            (List.length (after c') + List.length skipped =? List.length rest) in
          skipped ++ repl ++ sub_loop fuel' r repl empty (fst c') (snd c')
      end
  end.

(** [re.sub(pattern, repl, text)] *)
Definition sub (r : regex) (repl : str) (text : str) : str :=
  sub_loop (2 * List.length text + 2) r repl false None text.

End Matcher.

(** Writing patterns. *)
Fixpoint word (s : str) : regex :=
  match s with
  | [] => Eps
  | c :: s' => Cat (One (Chr c)) (word s')
  end.

Definition seq (rs : list regex) : regex := fold_right Cat Eps rs.

Definition star (k : item) : regex := Repeat true 0 k.
Definition plus (k : item) : regex := Repeat true 1 k.
Definition lazy_star (k : item) : regex := Repeat false 0 k.

End Re.

Import Re.

(** ** Text cleanup (lines 156-172) *)

Definition flags_is : flags := {| ignorecase := true; dotall := true |}.
Definition flags_none : flags := {| ignorecase := false; dotall := false |}.

(** [(?is)<think>.*?</think>] *)
Definition THINK : regex :=
  seq [word (lit "<think>"); lazy_star Dot; word (lit "</think>")].

(** [(?:\n\n|$)] *)
Definition BREAK : regex := Alt (word [LF; LF]) AtEnd.

(** The four patterns of [meta_patterns], all under [(?is)]:
    [^\s*the\s+user\s+is\s+asking\s+me.*?(?:\n\n|$)],
    [^\s*i\s+can\s+see\s+the\s+image.*?(?:\n\n|$)],
    [^\s*i\s+should\b.*?(?:\n\n|$)],
    [^\s*based\s+on\s+the\s+.*?(?:\n\n|$)]. *)
Definition meta_patterns : list regex :=
  [ seq [AtBegin; star Space; word (lit "the"); plus Space; word (lit "user");
         plus Space; word (lit "is"); plus Space; word (lit "asking");
         plus Space; word (lit "me"); lazy_star Dot; BREAK];
    seq [AtBegin; star Space; word (lit "i"); plus Space; word (lit "can");
         plus Space; word (lit "see"); plus Space; word (lit "the");
         plus Space; word (lit "image"); lazy_star Dot; BREAK];
    seq [AtBegin; star Space; word (lit "i"); plus Space; word (lit "should");
         Boundary; lazy_star Dot; BREAK];
    seq [AtBegin; star Space; word (lit "based"); plus Space; word (lit "on");
         plus Space; word (lit "the"); plus Space; lazy_star Dot; BREAK] ].

(** [\n{3,}] *)
Definition BLANKS : regex := Repeat true 3 (Chr LF).

(** The body of [clean_model_text] on a [str]. *)
Definition clean_text (text : str) : str :=
  let text := sub flags_is THINK [] text in
  let text := fold_left (fun t pat => sub flags_is pat [] t) meta_patterns text in
  strip (sub flags_none BLANKS [LF; LF] text).

(** ** Python values: the result of parsing a JSON document

    A [dict] is the list of its items in insertion order; its keys are
    distinct, and a lookup takes the first item under the key. Floats are
    IEEE specifications, so that [json.loads] can yield the infinities and
    NaN that [json.dumps(allow_nan=False)] later refuses. *)

#[local] Set Warnings "-register-all".
Inductive pyval :=
| VNone
| VBool (b : bool)
| VInt (n : Z)
| VFloat (f : spec_float)
| VStr (s : str)
| VList (l : list pyval)
| VDict (d : list (str * pyval)).
#[local] Set Warnings "register-all".

Inductive exn_class :=
| AttributeError | KeyError | IndexError | TypeError | ValueError
| OtherError.   (* what the file system, the transport or the parser raise *)

(** An exception other than [HTTPException]: its class and [str(ex)]. *)
Record error := Error { class : exn_class; message : str }.

Inductive pyexn :=
| HTTPException (status_code : Z) (detail : pyval)
| Raised (e : error).

Module Py.

(** Truth value, as [or], [not] and [if] take it. *)
Definition truth (v : pyval) : bool :=
  match v with
  | VNone => false
  | VBool b => b
  | VInt n => negb (n =? 0)%Z
  | VFloat (S754_zero _) => false
  | VFloat _ => true
  | VStr s => truthy s
  | VList l => match l with [] => false | _ => true end
  | VDict d => match d with [] => false | _ => true end
  end.

(** [a or b] *)
Definition or (a b : pyval) : pyval := if truth a then a else b.

Definition type_name (v : pyval) : str :=
  match v with
  | VNone => lit "NoneType"
  | VBool _ => lit "bool"
  | VInt _ => lit "int"
  | VFloat _ => lit "float"
  | VStr _ => lit "str"
  | VList _ => lit "list"
  | VDict _ => lit "dict"
  end.

Definition isdict (v : pyval) : bool :=
  match v with VDict _ => true | _ => false end.

Definition lookup (d : list (str * pyval)) (k : str) : option pyval :=
  match find (fun kv => Str.eqb (fst kv) k) d with
  | Some kv => Some (snd kv)
  | None => None
  end.

(** [v.get(k, default)]: only a dict has the method. *)
Definition get (v : pyval) (k : str) (default : pyval) : error + pyval :=
  match v with
  | VDict d => inr (match lookup d k with Some x => x | None => default end)
  | _ => inl (Error AttributeError
                (lit "'" ++ type_name v ++ lit "' object has no attribute 'get'"))
  end.

(** [v[0]]; the keys of a parsed object are strings, so 0 is not one. *)
Definition item0 (v : pyval) : error + pyval :=
  match v with
  | VList (x :: _) => inr x
  | VList [] => inl (Error IndexError (lit "list index out of range"))
  | VStr (c :: _) => inr (VStr [c])
  | VStr [] => inl (Error IndexError (lit "string index out of range"))
  | VDict _ => inl (Error KeyError (lit "0"))
  | _ => inl (Error TypeError
                (lit "'" ++ type_name v ++ lit "' object is not subscriptable"))
  end.

(** [v[k]] for a string key. *)
Definition getitem (v : pyval) (k : str) : error + pyval :=
  match v with
  | VDict d =>
      match lookup d k with
      | Some x => inr x
      | None => inl (Error KeyError (lit "'" ++ k ++ lit "'"))
      end
  | VList _ | VStr _ =>
      inl (Error TypeError (type_name v ++ lit " indices must be integers"))
  | _ => inl (Error TypeError
                (lit "'" ++ type_name v ++ lit "' object is not subscriptable"))
  end.

(** [v == s] for a string [s]. *)
Definition eq_str (v : pyval) (s : str) : bool :=
  match v with VStr t => Str.eqb t s | _ => false end.

Definition finite_float (f : spec_float) : bool :=
  match f with S754_infinity _ | S754_nan => false | _ => true end.

(** Whether [json.dumps(v, allow_nan=False)] accepts the value. *)
Fixpoint json_compliant (v : pyval) : bool :=
  match v with
  | VFloat f => finite_float f
  | VList l => forallb json_compliant l
  | VDict d => forallb (fun kv => json_compliant (snd kv)) d
  | _ => true
  end.

End Py.

(** ** Extraction of the assistant text (lines 136-153) *)

Notation "x <-? e ;; k" :=
  (match e with inl err => inl err | inr x => k end)
  (at level 61, e at next level, right associativity).

(** The [for part in content] loop; the result is [assistant_text]. *)
Fixpoint text_part (content : list pyval) : error + pyval :=
  match content with
  | [] => inr (VStr [])
  | part :: content' =>
      ptype <-? (if Py.isdict part then Py.get part (lit "type") VNone
                 else inr VNone) ;;
      if Py.eq_str ptype (lit "output_text") || Py.eq_str ptype (lit "text")
      then
        t <-? Py.get part (lit "text") VNone ;;
        inr (Py.or t (VStr []))
      else text_part content'
  end.

(** The body of the [try]. *)
Definition assistant_text_try (data : pyval) : error + pyval :=
  choices <-? Py.get data (lit "choices") VNone ;;
  choice <-? Py.item0 (Py.or choices (VList [VDict []])) ;;
  m <-? Py.get (Py.or choice (VDict [])) (lit "message") VNone ;;
  let message := Py.or m (VDict []) in
  content <-? Py.get message (lit "content") VNone ;;
  match content with
  | VList parts => text_part parts
  | VStr _ => inr content
  | _ =>
      content' <-? Py.get message (lit "content") VNone ;;
      if Py.isdict message && Py.isdict content'
      then
        c <-? Py.getitem message (lit "content") ;;
        Py.get c (lit "text") (VStr [])
      else inr (VStr [])
  end.

(** [try: ... except Exception: assistant_text = ""] *)
Definition assistant_text (data : pyval) : pyval :=
  match assistant_text_try data with
  | inr t => t
  | inl _ => VStr []
  end.

(** [clean_model_text] *)
Definition clean_model_text (text : pyval) : str :=
  match text with
  | VStr s => clean_text s
  | _ => []
  end.

(** ** [pathlib] paths (POSIX flavour) *)

Module Path.

(** A pure path: its root ([""], ["/"] or ["//"]) and the components that
    follow it. *)
Record path := { root : str; parts : list str }.

Definition SEP : ascii := "/"%char.

(** [s.split(sep)] *)
Fixpoint split (sep : ascii) (s : str) : list str :=
  match s with
  | [] => [[]]
  | c :: s' =>
      if Ascii.eqb c sep then [] :: split sep s'
      else match split sep s' with
           | h :: t => (c :: h) :: t
           | [] => [[c]]
           end
  end.

Fixpoint lstrip_sep (s : str) : str :=
  match s with
  | c :: s' => if Ascii.eqb c SEP then lstrip_sep s' else s
  | [] => []
  end.

(** [splitroot]: exactly two leading separators make the root ["//"], one
    or more than two make it ["/"]. *)
Definition splitroot (s : str) : str * str :=
  match s with
  | c :: _ =>
      if Ascii.eqb c SEP then
        let rel := lstrip_sep s in
        (if List.length s - List.length rel =? 2 then [SEP; SEP] else [SEP], rel)
      else ([], s)
  | [] => ([], [])
  end.

(** [x and x != '.'] *)
Definition component (x : str) : bool :=
  truthy x && negb (Str.eqb x (lit ".")).

(** [Path(s)] *)
Definition parse (s : str) : path :=
  let (r, rel) := splitroot s in
  {| root := r; parts := filter component (split SEP rel) |}.

(** [p.name]: the final component, [""] when there is none. *)
Definition name (p : path) : str := last (parts p) [].

(** [p / s] *)
Definition join (p : path) (s : str) : path :=
  let q := parse s in
  if truthy (root q) then q
  else {| root := root p; parts := parts p ++ parts q |}.

(** [p.parent], for a path with a final component. *)
Definition parent (p : path) : path :=
  {| root := root p; parts := removelast (parts p) |}.

End Path.

(** ** [datetime] and [strftime("%Y%m%dT%H%M%S%fZ")] *)

Record datetime := {
  year : N; month : N; day : N;
  hour : N; minute : N; second : N; microsecond : N }.

Definition digits (n : N) : str :=
  list_ascii_of_string (NilEmpty.string_of_uint (N.to_uint n)).

Definition zfill (width : nat) (s : str) : str :=
  repeat "0"%char (width - List.length s) ++ s.

Definition strftime (t : datetime) : str :=
  zfill 4 (digits (year t)) ++ zfill 2 (digits (month t))
  ++ zfill 2 (digits (day t)) ++ lit "T"
  ++ zfill 2 (digits (hour t)) ++ zfill 2 (digits (minute t))
  ++ zfill 2 (digits (second t)) ++ zfill 6 (digits (microsecond t))
  ++ lit "Z".

(** ** [base64.b64encode] *)

Definition bytes := list Byte.byte.

Definition b64_alphabet : str :=
  lit "ABCDEFGHIJKLMNOPQRSTUVWXYZabcdefghijklmnopqrstuvwxyz0123456789+/".

Definition b64_char (n : N) : ascii :=
  nth (N.to_nat (n mod 64)) b64_alphabet "="%char.

Fixpoint b64encode (bs : bytes) : str :=
  let v := Byte.to_N in
  match bs with
  | a :: b :: c :: rest =>
      let n := (v a * 65536 + v b * 256 + v c)%N in
      [b64_char (n / 262144); b64_char (n / 4096); b64_char (n / 64); b64_char n]
      ++ b64encode rest
  | [a; b] =>
      let n := (v a * 65536 + v b * 256)%N in
      [b64_char (n / 262144); b64_char (n / 4096); b64_char (n / 64); "="%char]
  | [a] =>
      let n := (v a * 65536)%N in
      [b64_char (n / 262144); b64_char (n / 4096); "="%char; "="%char]
  | [] => []
  end.

(** ** The handler's world and its effects *)

Record UploadFile := {
  filename : str;
  content_type : option str;
  body : bytes }.

(** Process-wide configuration read from the environment. *)
Record Config := {
  PERPLEXITY_API_KEY : option str;
  MODEL_NAME : str }.

(** What of an [httpx.Response] the handler looks at; [resp_json] is the
    outcome of [resp.json()]. *)
Record Response := {
  resp_status : Z;
  resp_text : str;
  resp_json : error + pyval }.

(** The side effects of a request, in the order in which they happen. *)
Inductive event :=
| ReadUpload                                     (* [await file.read()] *)
| Mkdir (p : Path.path)
| WriteFile (p : Path.path) (content : bytes)    (* [open(p, "wb")], [f.write] *)
| ReadFile (p : Path.path)                       (* [p.read_bytes()] *)
| Post (url : str) (headers : list (str * str)) (payload : pyval).

(** The answers of the environment to one request. *)
Record World := {
  here : Path.path;                              (* [Path(__file__).parent] *)
  utcnow : datetime;
  mkdir : Path.path -> error + unit;
  write_bytes : Path.path -> bytes -> error + unit;
  read_bytes : Path.path -> error + bytes;
  post : str -> list (str * str) -> pyval -> error + Response;
  phrase : Z -> option str }.
    (* [http.HTTPStatus(code).phrase], the table of the Python library in
       use; [None] where [http.HTTPStatus(code)] raises [ValueError] *)

(** Computations that log their effects and may raise. *)
Definition M (A : Type) : Type := list event -> list event * (pyexn + A).

Definition ret {A} (a : A) : M A := fun tr => (tr, inr a).

Definition bind {A B} (m : M A) (k : A -> M B) : M B :=
  fun tr =>
    match m tr with
    | (tr', inr a) => k a tr'
    | (tr', inl ex) => (tr', inl ex)
    end.

Definition raise {A} (ex : pyexn) : M A := fun tr => (tr, inl ex).

(** [if cond: raise ex] *)
Definition raise_if (cond : bool) (ex : pyexn) : M unit :=
  if cond then raise ex else ret tt.

(** An effect [ev] whose outcome the world gives; [handler] is the
    [except Exception as ex] clause around it ([Raised] when there is
    none). *)
Definition attempt {A} (ev : event) (outcome : error + A)
    (handler : error -> pyexn) : M A :=
  fun tr =>
    (tr ++ [ev],
     match outcome with inr a => inr a | inl e => inl (handler e) end).

(** A step without effect that may raise. *)
Definition lift {A} (r : error + A) : M A :=
  match r with inr a => ret a | inl e => raise (Raised e) end.

(** [try: body  except HTTPException: raise  except Exception as ex: raise
    handler(ex)] *)
Definition try_except {A} (body : M A) (handler : error -> pyexn) : M A :=
  fun tr =>
    match body tr with
    | (tr', inl (Raised e)) => (tr', inl (handler e))
    | r => r
    end.

Declare Scope handler_scope.
Delimit Scope handler_scope with handler.
Notation "x <- e ;; k" := (bind e (fun x => k))
  (at level 61, e at next level, right associativity) : handler_scope.
Notation "e ;; k" := (bind e (fun _ => k))
  (at level 61, right associativity) : handler_scope.

(** ** Constants of [main.py] *)

Definition PERPLEXITY_API_URL : str :=
  lit "https://api.perplexity.ai/chat/completions".

Definition MAX_BYTES : Z := 10 * 1024 * 1024.

Definition ALLOWED_MIME : list str := [lit "image/png"; lit "image/jpeg"].

(** [file.content_type in ALLOWED_MIME] *)
Definition allowed_mime (ct : option str) : bool :=
  match ct with
  | Some s => existsb (Str.eqb s) ALLOWED_MIME
  | None => false
  end.

(** [bool(PERPLEXITY_API_KEY)]: set and not empty. *)
Definition key_configured (key : option str) : bool :=
  match key with Some k => truthy k | None => false end.

(** [f"{x}"] of an optional string. *)
Definition format_opt (x : option str) : str :=
  match x with Some s => s | None => lit "None" end.

Definition opt_val (x : option str) : pyval :=
  match x with Some s => VStr s | None => VNone end.

Definition len (b : bytes) : Z := Z.of_nat (List.length b).

(** The double nearest to 0.2. *)
Definition temperature : spec_float := S754_finite false 7205759403792794 (-55).

Definition SYSTEM_CONTENT : str :=
  lit "You are an expert agronomist. Identify likely leaf diseases and provide concise, practical guidance.".

Definition payload (model : str) (user_text data_uri : str) : pyval :=
  VDict [
    (lit "model", VStr model);
    (lit "messages", VList [
       VDict [(lit "role", VStr (lit "system"));
              (lit "content", VStr SYSTEM_CONTENT)];
       VDict [(lit "role", VStr (lit "user"));
              (lit "content", VList [
                 VDict [(lit "type", VStr (lit "text"));
                        (lit "text", VStr user_text)];
                 VDict [(lit "type", VStr (lit "image_url"));
                        (lit "image_url",
                         VDict [(lit "url", VStr data_uri)])]])]]);
    (lit "temperature", VFloat temperature)].

Definition headers (key : option str) : list (str * str) :=
  [(lit "Authorization", lit "Bearer " ++ format_opt key);
   (lit "Content-Type", lit "application/json")].

(** [JSONResponse(content=...)]: the body is rendered at construction with
    [json.dumps(..., ensure_ascii=False, allow_nan=False).encode("utf-8")].
    The dump raises [ValueError] on an infinity or a NaN. The encoding
    raises [UnicodeEncodeError] on a lone surrogate, which no string of
    this development holds (see [Str.str]): for the contents stated here
    the rendering fails on the numbers only. *)
Definition JSONResponse (content : pyval) : M pyval :=
  if Py.json_compliant content then ret content
  else raise (Raised (Error ValueError
         (lit "Out of range float values are not JSON compliant"))).

(** The name under which the upload is stored (lines 72-74). *)
Definition safe_name (w : World) (file : UploadFile) : str :=
  let original_name := Path.name (Path.parse (filename file)) in
  let timestamp := strftime (utcnow w) in
  timestamp ++ lit "_" ++ original_name.

Definition uploads_dir (w : World) : Path.path :=
  Path.join (here w) (lit "uploads").

Definition saved_path (w : World) (file : UploadFile) : Path.path :=
  Path.join (uploads_dir w) (safe_name w file).

(** The success envelope (lines 176-188). *)
Definition success_body (file : UploadFile) (user_text : str)
    (model usage data : pyval) (message : str) : pyval :=
  VDict [
    (lit "success", VBool true);
    (lit "data", VDict [
       (lit "filename", VStr (filename file));
       (lit "content_type", opt_val (content_type file));
       (lit "prompt", VStr user_text);
       (lit "model", model);
       (lit "message", VStr message);
       (lit "usage", usage);
       (lit "source", VStr (lit "perplexity"));
       (lit "raw", data)])].

Definition envelope (file : UploadFile) (user_text : str) (data : pyval)
    (message : str) : M pyval :=
  (model <- lift (Py.get data (lit "model") VNone) ;;
   usage <- lift (Py.get data (lit "usage") VNone) ;;
   JSONResponse (success_body file user_text model usage data message))%handler.

(** ** [analyze] (lines 55-192) *)

(** [repr] of an [int]. *)
Definition repr_int (n : Z) : str :=
  if (n <? 0)%Z then lit "-" ++ digits (Z.to_N (- n)) else digits (Z.to_N n).

(** The detail of line 131: the parsed body, or the raw text in a mapping
    when [resp.json()] raises (lines 122-125). *)
Definition error_detail (resp : Response) : pyval :=
  match resp_json resp with
  | inr detail => detail
  | inl _ => VDict [(lit "message", VStr (resp_text resp))]
  end.

(** [raise HTTPException(status_code=code, detail=detail)]. The
    constructor replaces a detail that is [None] by the reason phrase of
    the status, [http.HTTPStatus(code).phrase]; for a status that the
    library does not list this lookup raises [ValueError], in place of the
    [HTTPException]. *)
Definition http_exception (w : World) (code : Z) (detail : pyval) : pyexn :=
  match detail with
  | VNone =>
      match phrase w code with
      | Some reason => HTTPException code (VStr reason)
      | None =>
          Raised (Error ValueError
                    (repr_int code ++ lit " is not a valid HTTPStatus"))
      end
  | _ => HTTPException code detail
  end.

(** What the handler does with the upstream's answer (lines 120-188). *)
Definition respond (w : World) (file : UploadFile) (user_text : str)
    (resp : Response) : M pyval :=
  (raise_if (400 <=? resp_status resp)%Z
     (http_exception w (resp_status resp) (error_detail resp)) ;;
   data <- lift (resp_json resp) ;;
   let assistant_text := assistant_text data in
   let assistant_text := clean_model_text assistant_text in
   envelope file user_text data assistant_text)%handler.

Definition analyze (cfg : Config) (w : World) (file : UploadFile)
    (prompt : str) : M pyval :=
  (raise_if (negb (key_configured (PERPLEXITY_API_KEY cfg)))
     (HTTPException 500 (VStr (lit "PERPLEXITY_API_KEY is not configured"))) ;;
   raise_if (negb (allowed_mime (content_type file)))
     (HTTPException 400 (VStr (lit "Only PNG and JPG/JPEG files are allowed."))) ;;
   content <- attempt ReadUpload (inr (body file)) Raised ;;
   raise_if (MAX_BYTES <? len content)%Z
     (HTTPException 400 (VStr (lit "File too large. Max 10 MB."))) ;;
   attempt (Mkdir (uploads_dir w)) (mkdir w (uploads_dir w)) Raised ;;
   let saved_path := saved_path w file in
   attempt (WriteFile saved_path content) (write_bytes w saved_path content)
     (fun ex => HTTPException 500
                  (VStr (lit "Failed to save upload: " ++ message ex))) ;;
   saved_bytes <- attempt (ReadFile saved_path) (read_bytes w saved_path)
     (fun ex => HTTPException 500
                  (VStr (lit "Failed to read saved file: " ++ message ex))) ;;
   let b64 := b64encode saved_bytes in
   let data_uri :=
     lit "data:" ++ format_opt (content_type file) ++ lit ";base64," ++ b64 in
   let user_text := user_text prompt in
   let payload := payload (MODEL_NAME cfg) user_text data_uri in
   let headers := headers (PERPLEXITY_API_KEY cfg) in
   try_except
     (resp <- attempt (Post PERPLEXITY_API_URL headers payload)
                (post w PERPLEXITY_API_URL headers payload) Raised ;;
      respond w file user_text resp)
     (fun ex => HTTPException 500 (VStr (message ex))))%handler.

(** Running the handler: the trace of effects and the outcome. *)
Definition run {A} (m : M A) : list event * (pyexn + A) := m [].

(** The status code of the HTTP answer. A [JSONResponse] is answered with
    200. An [HTTPException] is answered by the framework with
    [JSONResponse({"detail": detail}, status_code=code)]: with its code
    when that renders, and with 500 when the rendering raises (an infinity
    or a NaN in the detail). An exception that escapes the handler is
    answered with 500. *)
Definition status {A} (r : list event * (pyexn + A)) : Z :=
  match snd r with
  | inr _ => 200
  | inl (HTTPException code detail) =>
      if Py.json_compliant (VDict [(lit "detail", detail)]) then code else 500
  | inl (Raised _) => 500
  end.

Definition trace {A} (r : list event * (pyexn + A)) : list event := fst r.

(** ** Vocabulary of the statements *)

(** A string of whitespace only (the empty string included). *)
Definition blank (s : str) : bool := forallb isspace s.

(** A string that neither starts nor ends with whitespace. *)
Definition edge_free (t : str) : bool :=
  match t with
  | [] => true
  | c :: _ => negb (isspace c) && negb (isspace (last t c))
  end.

(** [t] is [s] without its leading and trailing whitespace. *)
Definition trimmed (s t : str) : Prop :=
  exists l r, s = l ++ t ++ r /\ blank l = true /\ blank r = true
              /\ edge_free t = true.

(** [re.search(r, text) is not None] *)
Definition matches (fl : flags) (r : regex) (text : str) : bool :=
  match search fl r false None text with Some _ => true | None => false end.

(** The rounds of [sub_loop] that a text can take. *)
Definition rounds (must_advance : bool) (rest : str) : nat :=
  2 * List.length rest + (if must_advance then 0 else 1).

(** Dropping every newline that follows two newlines or more: what
    replacing [\n{3,}] by two newlines amounts to. *)
Fixpoint squeeze (k : nat) (s : str) : str :=
  match s with
  | [] => []
  | c :: s' =>
      if Ascii.eqb c LF
      then if 2 <=? k then squeeze (S k) s' else c :: squeeze (S k) s'
      else c :: squeeze 0 s'
  end.

(** No three newlines in a row in [s], when [k] newlines precede it. *)
Fixpoint short_runs (k : nat) (s : str) : bool :=
  match s with
  | [] => true
  | c :: s' =>
      if Ascii.eqb c LF then (k <? 2) && short_runs (S k) s'
      else short_runs 0 s'
  end.

(** The text after the leading newlines of [s], and their number. *)
Fixpoint skip_lf (s : str) : str :=
  match s with
  | c :: s' => if Ascii.eqb c LF then skip_lf s' else s
  | [] => []
  end.

Fixpoint lead_lf (s : str) : nat :=
  match s with
  | c :: s' => if Ascii.eqb c LF then S (lead_lf s') else 0
  | [] => 0
  end.



(** The field of a dict, [None] for a missing field or another value. *)
Definition field (v : pyval) (k : str) : pyval :=
  match v with
  | VDict d => match Py.lookup d k with Some x => x | None => VNone end
  | _ => VNone
  end.



(** The outcome of the [try] block around the upstream call, from the
    outcome of its body. *)
Definition guarded (r : pyexn + pyval) : pyexn + pyval :=
  match r with
  | inl (Raised e) => inl (HTTPException 500 (VStr (message e)))
  | _ => r
  end.

(** The characters of a time stamp: digits, [T] and [Z]. *)
Definition stamp_char (c : ascii) : bool :=
  between 48 57 (code c) || Ascii.eqb c "T" || Ascii.eqb c "Z".

(** The validations pass, and the upload is stored and read back as
    [saved_bytes]. *)
Definition stored (cfg : Config) (w : World) (file : UploadFile)
    (saved_bytes : bytes) : Prop :=
  key_configured (PERPLEXITY_API_KEY cfg) = true
  /\ allowed_mime (content_type file) = true
  /\ (len (body file) <= MAX_BYTES)%Z
  /\ mkdir w (uploads_dir w) = inr tt
  /\ write_bytes w (saved_path w file) (body file) = inr tt
  /\ read_bytes w (saved_path w file) = inr saved_bytes.

(** The outcome of the call to the upstream, for the request that the
    handler builds. *)
Definition upstream_call (cfg : Config) (w : World) (file : UploadFile)
    (prompt : str) (saved_bytes : bytes) : error + Response :=
  post w PERPLEXITY_API_URL (headers (PERPLEXITY_API_KEY cfg))
    (payload (MODEL_NAME cfg) (user_text prompt)
       (lit "data:" ++ format_opt (content_type file)
        ++ lit ";base64," ++ b64encode saved_bytes)).

(** The request gets as far as the upstream, which answers [resp]. *)
Definition reaches_upstream (cfg : Config) (w : World) (file : UploadFile)
    (prompt : str) (resp : Response) : Prop :=
  exists saved_bytes,
    stored cfg w file saved_bytes
    /\ upstream_call cfg w file prompt saved_bytes = inr resp.

(** The effects of a request up to the reading back of the upload. *)
Definition storage_trace (w : World) (file : UploadFile) : list event :=
  [ReadUpload; Mkdir (uploads_dir w);
   WriteFile (saved_path w file) (body file); ReadFile (saved_path w file)].

(** ** Sample inputs *)

Definition sample_cfg : Config :=
  {| PERPLEXITY_API_KEY := Some (lit "pplx-0000"); MODEL_NAME := lit "sonar-reasoning" |}.

Definition sample_now : datetime :=
  {| year := 2025; month := 3; day := 9; hour := 14; minute := 7;
     second := 30; microsecond := 4521 |}.

(** The reason phrases of [http.HTTPStatus] for the statuses from 400 on,
    as Python 3.11 has them. *)
Definition reason_phrase (code : Z) : option str :=
  option_map (fun kv => lit (snd kv))
    (find (fun kv => (fst kv =? code)%Z)
       [(400, "Bad Request"); (401, "Unauthorized");
        (402, "Payment Required"); (403, "Forbidden"); (404, "Not Found");
        (405, "Method Not Allowed"); (406, "Not Acceptable");
        (407, "Proxy Authentication Required"); (408, "Request Timeout");
        (409, "Conflict"); (410, "Gone"); (411, "Length Required");
        (412, "Precondition Failed"); (413, "Request Entity Too Large");
        (414, "Request-URI Too Long"); (415, "Unsupported Media Type");
        (416, "Requested Range Not Satisfiable");
        (417, "Expectation Failed"); (418, "I'm a Teapot");
        (421, "Misdirected Request"); (422, "Unprocessable Entity");
        (423, "Locked"); (424, "Failed Dependency"); (425, "Too Early");
        (426, "Upgrade Required"); (428, "Precondition Required");
        (429, "Too Many Requests");
        (431, "Request Header Fields Too Large");
        (451, "Unavailable For Legal Reasons");
        (500, "Internal Server Error"); (501, "Not Implemented");
        (502, "Bad Gateway"); (503, "Service Unavailable");
        (504, "Gateway Timeout"); (505, "HTTP Version Not Supported");
        (506, "Variant Also Negotiates"); (507, "Insufficient Storage");
        (508, "Loop Detected"); (510, "Not Extended");
        (511, "Network Authentication Required")]%Z%string).

(** A world whose file system works and whose upstream answers [resp]. *)
Definition sample_world (file : UploadFile) (resp : Response) : World :=
  {| here := Path.parse (lit "/srv/leaf-ai/backend");
     utcnow := sample_now;
     mkdir := fun _ => inr tt;
     write_bytes := fun _ _ => inr tt;
     read_bytes := fun _ => inr (body file);
     post := fun _ _ _ => inr resp;
     phrase := reason_phrase |}.

Definition png (name : string) (content : bytes) : UploadFile :=
  {| filename := lit name; content_type := Some (lit "image/png");
     body := content |}.

Definition leaf_png : UploadFile :=
  png "leaf.png" (list_byte_of_string "PNG").

(** An upstream answer of status 200 whose body parses to [data]. *)
Definition ok_response (data : pyval) : Response :=
  {| resp_status := 200; resp_text := []; resp_json := inr data |}.

(** A chat completion whose message content is [content]. *)
Definition completion (content : pyval) : pyval :=
  VDict [(lit "model", VStr (lit "sonar-reasoning"));
         (lit "choices",
          VList [VDict [(lit "message",
                         VDict [(lit "role", VStr (lit "assistant"));
                                (lit "content", content)])]]);
         (lit "usage", VDict [(lit "total_tokens", VInt 42)])].




(** An upload whose filename climbs out of the directory. *)
Definition climbing_png : UploadFile :=
  png "../../etc/passwd" (list_byte_of_string "PNG").

(** A world whose disk is full: writing fails. *)
Definition full_disk (file : UploadFile) (resp : Response) : World :=
  {| here := here (sample_world file resp);
     utcnow := sample_now;
     mkdir := fun _ => inr tt;
     write_bytes := fun _ _ => inl (Error OtherError (lit "No space left on device"));
     read_bytes := fun _ => inr (body file);
     post := fun _ _ _ => inr resp;
     phrase := reason_phrase |}.

(** A world whose upstream does not answer in time. *)
Definition offline (file : UploadFile) : World :=
  {| here := here (sample_world file (ok_response VNone));
     utcnow := sample_now;
     mkdir := fun _ => inr tt;
     write_bytes := fun _ _ => inr tt;
     read_bytes := fun _ => inr (body file);
     post := fun _ _ _ => inl (Error OtherError (lit "timed out"));
     phrase := reason_phrase |}.

(** The call to the upstream as an effect. *)
Definition upstream_request (cfg : Config) (file : UploadFile) (prompt : str)
    (saved_bytes : bytes) : event :=
  Post PERPLEXITY_API_URL (headers (PERPLEXITY_API_KEY cfg))
    (payload (MODEL_NAME cfg) (user_text prompt)
       (lit "data:" ++ format_opt (content_type file)
        ++ lit ";base64," ++ b64encode saved_bytes)).

(** An upstream answer of status 200 whose body is a page of HTML. *)
Definition html_page : Response :=
  {| resp_status := 200; resp_text := lit "<html>Maintenance</html>";
     resp_json := inl (Error ValueError (lit "Expecting value: line 1 column 1 (char 0)")) |}.
(** Decoding of base64, the inverse of [b64encode] (RFC 4648): the
    position of a character in the alphabet, and four characters to three
    bytes, fewer before padding. *)
Fixpoint index_of (c : ascii) (l : str) : N :=
  match l with
  | [] => 0
  | x :: l' => if Ascii.eqb x c then 0 else N.succ (index_of c l')
  end.

Definition b64_index (c : ascii) : N := index_of c b64_alphabet.

Definition byte_of (n : N) : Byte.byte :=
  match Byte.of_N (n mod 256) with Some b => b | None => Byte.x00 end.

Fixpoint b64decode (s : str) : bytes :=
  let i := b64_index in
  match s with
  | c1 :: c2 :: c3 :: c4 :: rest =>
      if Ascii.eqb c3 "=" then
        let n := (i c1 * 262144 + i c2 * 4096)%N in
        [byte_of (n / 65536)]
      else if Ascii.eqb c4 "=" then
        let n := (i c1 * 262144 + i c2 * 4096 + i c3 * 64)%N in
        [byte_of (n / 65536); byte_of (n / 256)]
      else
        let n := (i c1 * 262144 + i c2 * 4096 + i c3 * 64 + i c4)%N in
        byte_of (n / 65536) :: byte_of (n / 256) :: byte_of n :: b64decode rest
  | _ => []
  end.

(** A character of encoded text: of the alphabet, or the padding. *)
Definition b64_text_char (c : ascii) : bool :=
  existsb (Ascii.eqb c) b64_alphabet || Ascii.eqb c "=".

(** Arithmetic with division and remainder by constants. *)
Ltac euclid := zify; Z.to_euclidean_division_equations; lia.

(** The first character of [text] after its leading whitespace is none of
    those with which a preamble pattern starts: t, i and b, in either
    case. *)
Definition starts_plain (text : str) : bool :=
  match lstrip text with
  | [] => true
  | c :: _ => negb (existsb (Ascii.eqb c) (lit "tTiIbB"))
  end.

(** Checking a fact on all 256 characters. *)
Ltac by_cases_on x :=
  destruct x as [[] [] [] [] [] [] [] []]; vm_compute;
  try reflexivity; try (intros H; discriminate H).

(** A pattern without [^] and [\b]: its matches do not depend on the
    character before the position. *)
Fixpoint prev_free (r : regex) : bool :=
  match r with
  | AtBegin | Boundary => false
  | Cat r1 r2 | Alt r1 r2 => prev_free r1 && prev_free r2
  | _ => true
  end.

(** Rewriting with what is known of the letters of a word. *)
Ltac rewrite_letters :=
  repeat match goal with H : lower _ = _ |- _ => rewrite H; clear H end;
  reflexivity.

(** The values of [datetime] from the year 1000 on, with the ranges that
    the class enforces: for them [%Y] gives four digits. *)
Definition valid (t : datetime) : Prop :=
  (1000 <= year t <= 9999 /\ 1 <= month t <= 12 /\ 1 <= day t <= 31
   /\ hour t < 24 /\ minute t < 60 /\ second t < 60
   /\ microsecond t < 1000000)%N.

(** [int(s)] for a text of decimal digits. *)
Definition int_of (s : str) : option N :=
  option_map N.of_uint (NilEmpty.uint_of_string (string_of_list_ascii s)).

(** The last of [meta_patterns]:
    [(?is)^\s*based\s+on\s+the\s+.*?(?:\n\n|$)]. *)
Definition BASED_ON : regex := nth 3 meta_patterns Eps.

(** Where [.*?(?:\n\n|$)] stops: the text after the first two newlines in
    a row of [s]; without them the final newline of [s], if it ends with
    one, and nothing otherwise. *)
Fixpoint after_break (s : str) : str :=
  match s with
  | [] => []
  | x :: s' =>
      if Ascii.eqb x LF then
        match s' with
        | [] => [LF]
        | y :: s'' => if Ascii.eqb y LF then s'' else after_break s'
        end
      else after_break s'
  end.

(** No two newlines in a row in [s]. *)
Fixpoint one_paragraph (s : str) : bool :=
  match s with
  | [] => true
  | x :: s' =>
      match s' with
      | y :: _ => negb (Ascii.eqb x LF && Ascii.eqb y LF)
      | [] => true
      end && one_paragraph s'
  end.

(** * Properties *)

(** ** Facts on [strip] *)

Lemma lstrip_suffix s : exists ws, s = ws ++ lstrip s /\ forallb isspace ws = true.
Proof.
  induction s as [|c s IH]; simpl.
  - exists []. split; reflexivity.
  - destruct (isspace c) eqn:E.
    + destruct IH as [ws [H1 H2]]. exists (c :: ws). simpl.
      rewrite E, H2. split; [congruence | reflexivity].
    + exists []. split; reflexivity.
Qed.

Lemma lstrip_head s c s' : lstrip s = c :: s' -> isspace c = false.
Proof.
  induction s as [|x s IH]; simpl; [discriminate|].
  destruct (isspace x) eqn:E; [exact IH|].
  intros H. injection H as -> _. exact E.
Qed.

Lemma lstrip_id c s : isspace c = false -> lstrip (c :: s) = c :: s.
Proof. intros H. simpl. rewrite H. reflexivity. Qed.

Lemma lstrip_idem s : lstrip (lstrip s) = lstrip s.
Proof.
  destruct (lstrip s) as [|c s'] eqn:E; [reflexivity|].
  apply lstrip_id. eapply lstrip_head. eassumption.
Qed.

(** What [lstrip] leaves is empty exactly when the string is all
    whitespace. *)
Lemma lstrip_nil s : lstrip s = [] <-> forallb isspace s = true.
Proof.
  induction s as [|c s IH]; simpl; [tauto|].
  destruct (isspace c); simpl; [exact IH|]. split; discriminate.
Qed.

(** Removing whitespace on the left keeps the last character. *)
Lemma lstrip_last s d : lstrip s <> [] -> last (lstrip s) d = last s d.
Proof.
  induction s as [|c s IH]; simpl; [reflexivity|].
  destruct (isspace c); [|reflexivity].
  intros H. rewrite (IH H).
  destruct s as [|x s]; [simpl in H; congruence|reflexivity].
Qed.

Lemma rstrip_app_nonspace s c : isspace c = false -> rstrip (s ++ [c]) = s ++ [c].
Proof.
  intros H. unfold rstrip. rewrite rev_app_distr. simpl. rewrite H.
  simpl. rewrite rev_involutive. reflexivity.
Qed.

(** ** Prompt resolution *)

Lemma blank_rev (s : str) : blank (rev s) = blank s.
Proof.
  unfold blank. induction s as [|c s IH]; [reflexivity|].
  cbn [rev forallb]. rewrite forallb_app, IH. cbn [forallb].
  rewrite andb_true_r. apply andb_comm.
Qed.

Lemma rstrip_prefix (s : str) :
  exists ws, s = rstrip s ++ ws /\ blank ws = true.
Proof.
  destruct (lstrip_suffix (rev s)) as [ws [H1 H2]].
  exists (rev ws). split.
  - unfold rstrip. rewrite <- rev_app_distr, <- H1, rev_involutive. reflexivity.
  - rewrite blank_rev. exact H2.
Qed.

Lemma rstrip_last (s : str) (d : ascii) :
  rstrip s <> [] -> isspace (last (rstrip s) d) = false.
Proof.
  unfold rstrip. destruct (lstrip (rev s)) as [|x v] eqn:E;
    [intros H; contradiction H; reflexivity|].
  intros _. cbn [rev]. rewrite last_last. eapply lstrip_head, E.
Qed.

Lemma rstrip_nil (s : str) : rstrip s = [] <-> blank s = true.
Proof.
  unfold rstrip. rewrite <- blank_rev, <- lstrip_nil. split.
  - intros H. apply (f_equal (@rev ascii)) in H.
    rewrite rev_involutive in H. exact H.
  - intros ->. reflexivity.
Qed.

(** [strip] removes the whitespace at both ends, and nothing else. *)
Lemma strip_trimmed (s : str) : trimmed s (strip s).
Proof.
  destruct (lstrip_suffix s) as [l [Hl Bl]].
  destruct (rstrip_prefix (lstrip s)) as [r [Hr Br]].
  exists l, r. unfold strip. repeat split; try assumption.
  - rewrite <- Hr. exact Hl.
  - unfold edge_free. pose proof (rstrip_last (lstrip s)) as HL.
    destruct (rstrip (lstrip s)) as [|c t]; [reflexivity|].
    rewrite (HL c) by discriminate.
    apply lstrip_head in Hr. rewrite Hr. reflexivity.
Qed.

Lemma strip_nonempty (s : str) : blank s = false -> strip s <> [].
Proof.
  intros H E. unfold strip in E. apply rstrip_nil in E.
  destruct (lstrip s) as [|c t] eqn:El.
  - apply lstrip_nil in El. unfold blank in H. congruence.
  - apply lstrip_head in El. cbn [blank forallb] in E. rewrite El in E.
    discriminate E.
Qed.

(** A string without whitespace at its ends is left as it is. *)
Lemma strip_id (s : str) : edge_free s = true -> strip s = s.
Proof.
  destruct s as [|c s]; [reflexivity|]. cbn [edge_free].
  intros H. apply andb_true_iff in H as [Hc Hl].
  apply negb_true_iff in Hc, Hl. unfold strip. rewrite lstrip_id by exact Hc.
  rewrite (app_removelast_last c (l := c :: s)) by discriminate.
  apply rstrip_app_nonspace, Hl.
Qed.

Lemma strip_idem (s : str) : strip (strip s) = strip s.
Proof.
  apply strip_id. destruct (strip_trimmed s) as (l & r & _ & _ & _ & H).
  exact H.
Qed.

(** C1 (amended). For the empty prompt the resolved prompt is the default
    instruction. For a prompt with a character that is not whitespace the
    resolved prompt is not empty and is the supplied prompt without its
    leading and trailing whitespace; so it is the supplied prompt itself
    when that neither starts nor ends with whitespace. *)
Theorem prompt_resolution (prompt : str) :
  (prompt = [] -> user_text prompt = DEFAULT_PROMPT)
  /\ (blank prompt = false ->
      user_text prompt <> [] /\ trimmed prompt (user_text prompt))
  /\ (prompt <> [] -> edge_free prompt = true -> user_text prompt = prompt).
Proof.
  unfold user_text. split; [intros ->; reflexivity|]. split.
  - intros H. destruct prompt as [|c s]; [discriminate H|]. cbn [truthy].
    split; [apply strip_nonempty, H | apply strip_trimmed].
  - intros Hn He. destruct prompt as [|c s]; [congruence|]. cbn [truthy].
    apply strip_id, He.
Qed.

Lemma prompt_resolution_witness :
  user_text [] = DEFAULT_PROMPT
  /\ trimmed (lit "  Is it rust? ") (user_text (lit "  Is it rust? "))
  /\ user_text (lit "Is it rust?") = lit "Is it rust?".
Proof.
  split; [apply prompt_resolution; reflexivity|]. split.
  - apply prompt_resolution. reflexivity.
  - apply prompt_resolution; [discriminate | reflexivity].
Defined.

(** C1 as stated fails twice: a prompt of whitespace only resolves to the
    empty string, not to the default instruction, and a prompt with
    whitespace around its text resolves to the text alone. *)
Lemma prompt_resolution_counterexample :
  (blank (lit "   ") = true /\ user_text (lit "   ") = []
   /\ [] <> DEFAULT_PROMPT)
  /\ (blank (lit " rust? ") = false
      /\ user_text (lit " rust? ") = lit "rust?"
      /\ lit "rust?" <> lit " rust? ").
Proof.
  repeat split; try reflexivity; discriminate.
Qed.

(** ** The matcher on small subjects *)

Example dollar_before_final_newline :
  sub flags_is (seq [word (lit "a"); AtEnd]) (lit "X") (lit "A" ++ [LF])
  = lit "X" ++ [LF].
Proof. vm_compute. reflexivity. Qed.

Example think_lazy_caseless :
  sub flags_is THINK [] (lit "a<THINK>b</think>c</Think>d")
  = lit "ac</Think>d".
Proof. vm_compute. reflexivity. Qed.

Example preamble_needs_word_boundary :
  fold_left (fun t pat => sub flags_is pat [] t) meta_patterns
    (lit "I shoulder the blame")
  = lit "I shoulder the blame".
Proof. vm_compute. reflexivity. Qed.

Example preamble_up_to_blank_line :
  fold_left (fun t pat => sub flags_is pat [] t) meta_patterns
    (lit " I  should go." ++ [LF; LF] ++ lit "Rust.")
  = lit "Rust.".
Proof. vm_compute. reflexivity. Qed.

Example blank_lines_collapsed :
  sub flags_none BLANKS [LF; LF]
    (lit "a" ++ [LF; LF; LF; LF; LF] ++ lit "b" ++ [LF; LF] ++ lit "c" ++ [LF])
  = lit "a" ++ [LF; LF] ++ lit "b" ++ [LF; LF] ++ lit "c" ++ [LF].
Proof. vm_compute. reflexivity. Qed.

Example empty_matches_replaced :
  sub flags_none (star (Chr "x")) (lit "-") (lit "abxd") = lit "-a-b--d-".
Proof. vm_compute. reflexivity. Qed.

(** ** The matcher *)

Section MatcherFacts.

Variable fl : flags.

Lemma skipn_in {A} (n : nat) (l : list A) (x : A) :
  In x (skipn n l) -> In x l.
Proof.
  intros H. rewrite <- (firstn_skipn n l). apply in_or_app. right. exact H.
Qed.

Lemma runs_shorter (k : item) (rest : str) :
  forall prev c', In c' (runs fl k prev rest) ->
                  List.length (snd c') <= List.length rest.
Proof.
  induction rest as [|x rest IH]; intros prev c'; cbn [runs].
  - intros [<-|[]]. reflexivity.
  - intros [<-|H]; [reflexivity|].
    destruct (accepts fl k x); [|destruct H].
    apply IH in H. cbn [List.length]. lia.
Qed.

(** A match ends at or after the position where it starts. *)
Lemma exec_shorter (r : regex) :
  forall c c', In c' (exec fl r c) ->
               List.length (snd c') <= List.length (snd c).
Proof.
  induction r as [k | | | | r1 IH1 r2 IH2 | r1 IH1 r2 IH2 | greedy lo k |];
    intros c c'; cbn [exec].
  - destruct (snd c) as [|x rest]; [intros []|].
    destruct (accepts fl k x); [|intros []].
    intros [<-|[]]. cbn [snd List.length]. lia.
  - destruct (fst c); [intros []|]. intros [<-|[]]. reflexivity.
  - destruct (snd c) as [|x [|y rest]] eqn:E.
    + intros [<-|[]]. rewrite E. reflexivity.
    + destruct (Ascii.eqb x LF); [|intros []].
      intros [<-|[]]. rewrite E. reflexivity.
    + intros [].
  - destruct (xorb (word_before c) (word_after c)); [|intros []].
    intros [<-|[]]. reflexivity.
  - intros H. apply in_flat_map in H as (m & Hm & H).
    apply IH1 in Hm. apply IH2 in H. lia.
  - intros H. apply in_app_or in H as [H|H]; [apply IH1, H | apply IH2, H].
  - intros H.
    assert (Hin : In c' (runs fl k (fst c) (snd c))).
    { destruct greedy; [apply in_rev in H|]; exact (skipn_in _ _ _ H). }
    apply runs_shorter in Hin. exact Hin.
  - intros [<-|[]]. reflexivity.
Qed.

Lemma match_at_shorter (r : regex) (ma : bool) (c c' : pos) :
  match_at fl r ma c = Some c' ->
  List.length (snd c') <= List.length (snd c)
  /\ (ma = true -> List.length (snd c') < List.length (snd c)).
Proof.
  unfold match_at. intros H. apply find_some in H as [Hin Hp].
  split; [apply (exec_shorter r), Hin|].
  intros ->. cbn [negb orb] in Hp. apply Nat.ltb_lt in Hp. exact Hp.
Qed.

Lemma search_shorter (r : regex) (rest : str) :
  forall ma prev skipped c',
    search fl r ma prev rest = Some (skipped, c') ->
    List.length (snd c') + List.length skipped <= List.length rest
    /\ (ma = true ->
        List.length (snd c') + List.length skipped = List.length rest ->
        skipped <> []).
Proof.
  induction rest as [|x rest IH]; intros ma prev skipped c'; cbn [search].
  - destruct (match_at fl r ma (@pair _ str prev [])) as [m|] eqn:E;
      [|intros H; discriminate H].
    intros H. injection H as <- <-. apply match_at_shorter in E as [E1 E2].
    cbn [snd List.length] in *. split; [lia|]. intros Hma. specialize (E2 Hma). lia.
  - destruct (match_at fl r ma (@pair _ str prev (x :: rest))) as [m|] eqn:E.
    + intros H. injection H as <- <-. apply match_at_shorter in E as [E1 E2].
      cbn [snd List.length] in *. split; [lia|].
      intros Hma. specialize (E2 Hma). lia.
    + destruct (search fl r false (Some x) rest) as [[sk m]|] eqn:Es;
        [|intros H; discriminate H].
      intros H. injection H as <- <-. apply IH in Es as [Es _].
      cbn [List.length]. split; [lia|]. intros _ _. discriminate.
Qed.

Lemma sub_loop_fuel (r : regex) (repl : str) (fuel1 : nat) :
  forall fuel2 ma prev rest,
    rounds ma rest < fuel1 -> rounds ma rest < fuel2 ->
    sub_loop fl fuel1 r repl ma prev rest = sub_loop fl fuel2 r repl ma prev rest.
Proof.
  induction fuel1 as [|fuel1 IH]; intros fuel2 ma prev rest H1 H2; [lia|].
  destruct fuel2 as [|fuel2]; [lia|]. cbn [sub_loop].
  destruct (search fl r ma prev rest) as [[sk c']|] eqn:E; [|reflexivity].
  apply search_shorter in E as [E1 E2]. unfold after.
  do 2 f_equal. unfold rounds in *.
  destruct (Nat.eqb_spec (List.length (snd c') + List.length sk)
              (List.length rest)) as [Heq|Hne].
  - destruct ma.
    + specialize (E2 eq_refl Heq). destruct sk; [congruence|].
      cbn [List.length] in *. apply IH; lia.
    + apply IH; lia.
  - apply IH; destruct ma; lia.
Qed.

(** [sub] never runs out of rounds: more rounds change nothing. *)
Lemma sub_fuel_enough (r : regex) (repl text : str) (fuel : nat) :
  2 * List.length text + 2 <= fuel ->
  sub_loop fl fuel r repl false None text = sub fl r repl text.
Proof.
  intros H. unfold sub. apply sub_loop_fuel; unfold rounds; lia.
Qed.

End MatcherFacts.

(** ** Substitution *)

(** Without a match [re.sub] returns the text. *)
Lemma sub_no_match (fl : flags) (r : regex) (repl text : str) :
  matches fl r text = false -> sub fl r repl text = text.
Proof.
  unfold matches, sub. rewrite Nat.add_comm. cbn [Nat.add sub_loop].
  destruct (search fl r false None text); [discriminate|reflexivity].
Qed.

(** *** Runs of newlines *)

Lemma runs_rev_head (prev : option ascii) (rest : str) :
  exists p tl,
    rev (runs flags_none (Chr LF) prev rest) = (p, skip_lf rest) :: tl.
Proof.
  revert prev. induction rest as [|c rest IH]; intros prev.
  - exists prev, []. reflexivity.
  - cbn [runs accepts ignorecase flags_none skip_lf].
    destruct (Ascii.eqb c LF).
    + destruct (IH (Some c)) as (p & tl & E). cbn [rev]. rewrite E.
      exists p, (tl ++ [(prev, c :: rest)]). reflexivity.
    + exists prev, []. reflexivity.
Qed.

Lemma skip_lf_length (s : str) : List.length (skip_lf s) <= List.length s.
Proof.
  induction s as [|c s IH]; cbn [skip_lf]; [lia|].
  destruct (Ascii.eqb c LF); cbn [List.length]; lia.
Qed.

(** Three newlines at the position: the match takes the whole run. *)
Lemma match_blanks_some (ma : bool) (prev : option ascii) (tail : str) :
  exists p,
    match_at flags_none BLANKS ma (@pair _ str prev (LF :: LF :: LF :: tail))
    = Some (p, skip_lf tail).
Proof.
  unfold match_at, BLANKS.
  cbn [exec fst snd runs accepts ignorecase flags_none skipn].
  rewrite Ascii.eqb_refl. cbn [skipn].
  destruct (runs_rev_head (Some LF) tail) as (p & tl & E). rewrite E.
  exists p. cbn [find after snd List.length].
  pose proof (skip_lf_length tail) as H.
  replace (List.length (skip_lf tail) <? S (S (S (List.length tail))))
    with true by (symmetry; apply Nat.ltb_lt; lia).
  rewrite orb_true_r. reflexivity.
Qed.

(** Fewer than three newlines at the position: no match there. *)
Lemma match_blanks_none (ma : bool) (prev : option ascii) (rest : str) :
  lead_lf rest < 3 -> match_at flags_none BLANKS ma (prev, rest) = None.
Proof.
  intros H. unfold match_at, BLANKS.
  cbn [exec fst snd].
  destruct rest as [|a [|b [|c rest]]];
    cbn [runs accepts ignorecase flags_none lead_lf] in *;
    repeat match goal with
           | |- context [Ascii.eqb ?x LF] => destruct (Ascii.eqb x LF)
           | H : context [Ascii.eqb ?x LF] |- _ => destruct (Ascii.eqb x LF)
           end; try reflexivity; try lia.
Qed.

Lemma lead_lf_three (rest : str) :
  3 <= lead_lf rest -> exists tail, rest = LF :: LF :: LF :: tail.
Proof.
  destruct rest as [|a [|b [|c rest]]]; cbn [lead_lf];
    repeat match goal with
           | |- context [Ascii.eqb ?x LF] => destruct (Ascii.eqb_spec x LF)
           end; try lia.
  subst. intros _. eexists. reflexivity.
Qed.

Lemma squeeze_skip (k : nat) (s : str) :
  2 <= k -> squeeze k s = squeeze 0 (skip_lf s).
Proof.
  revert k. induction s as [|c s IH]; intros k Hk; [reflexivity|].
  cbn [squeeze skip_lf]. destruct (Ascii.eqb c LF) eqn:E.
  - replace (2 <=? k) with true by (symmetry; apply Nat.leb_le; lia).
    apply IH. lia.
  - cbn [squeeze]. rewrite E. reflexivity.
Qed.

(** What a search for [BLANKS] finds, in terms of [squeeze]; [k] newlines
    precede the position, in a run of fewer than three. *)
Lemma search_blanks (rest : str) :
  forall (k : nat) (ma : bool) (prev : option ascii),
    k = 0 \/ k + lead_lf rest < 3 ->
    match search flags_none BLANKS ma prev rest with
    | None => squeeze k rest = rest
    | Some (skipped, c') =>
        squeeze k rest = skipped ++ [LF; LF] ++ squeeze 0 (snd c')
        /\ List.length (snd c') < List.length rest
    end.
Proof.
  induction rest as [|x rest IH]; intros k ma prev Hk.
  - cbn [search]. rewrite match_blanks_none by (cbn; lia). reflexivity.
  - cbn [search].
    destruct (le_lt_dec 3 (lead_lf (x :: rest))) as [H3|H3].
    + destruct (lead_lf_three _ H3) as [tail E]. rewrite E.
      destruct (match_blanks_some ma prev tail) as [p Ep]. rewrite Ep.
      destruct Hk as [->|Hk]; [|lia].
      cbn [squeeze snd app]. rewrite !Ascii.eqb_refl. cbn [Nat.leb].
      rewrite squeeze_skip by lia. split; [reflexivity|].
      pose proof (skip_lf_length tail). cbn [List.length]. lia.
    + rewrite match_blanks_none by exact H3.
      cbn [squeeze lead_lf] in *. destruct (Ascii.eqb x LF) eqn:Ex.
      * assert (Hk2 : (2 <=? k) = false) by (apply Nat.leb_gt; lia).
        rewrite Hk2.
        specialize (IH (S k) false (Some x)).
        destruct (search flags_none BLANKS false (Some x) rest) as [[sk c']|].
        -- destruct IH as [IH1 IH2]; [right; lia|].
           rewrite IH1. split; [reflexivity|]. cbn [List.length]. lia.
        -- rewrite IH; [reflexivity|right; lia].
      * specialize (IH 0 false (Some x)).
        destruct (search flags_none BLANKS false (Some x) rest) as [[sk c']|].
        -- destruct IH as [IH1 IH2]; [left; reflexivity|].
           rewrite IH1. split; [reflexivity|]. cbn [List.length]. lia.
        -- rewrite IH; [reflexivity|left; reflexivity].
Qed.

Lemma sub_loop_blanks (fuel : nat) :
  forall (ma : bool) (prev : option ascii) (rest : str),
    List.length rest < fuel ->
    sub_loop flags_none fuel BLANKS [LF; LF] ma prev rest = squeeze 0 rest.
Proof.
  induction fuel as [|fuel IH]; intros ma prev rest Hf; [lia|].
  cbn [sub_loop].
  pose proof (search_blanks rest ma prev (or_introl eq_refl)) as H.
  destruct (search flags_none BLANKS ma prev rest) as [[sk c']|].
  - destruct H as [H1 H2]. rewrite IH by lia. symmetry. exact H1.
  - symmetry. exact H.
Qed.

(** Replacing [\n{3,}] by two newlines is [squeeze]. *)
Lemma sub_blanks (text : str) :
  sub flags_none BLANKS [LF; LF] text = squeeze 0 text.
Proof. apply sub_loop_blanks. lia. Qed.

(** *** Runs of at most two newlines *)

Lemma squeeze_short (s : str) :
  forall k, short_runs (Nat.min k 2) (squeeze k s) = true.
Proof.
  induction s as [|c s IH]; intros k; [reflexivity|].
  cbn [squeeze]. destruct (Ascii.eqb c LF) eqn:E.
  - destruct (Nat.leb_spec 2 k) as [H|H].
    + specialize (IH (S k)). rewrite Nat.min_r in * by lia. exact IH.
    + cbn [short_runs]. rewrite E. specialize (IH (S k)).
      rewrite Nat.min_l in * by lia.
      rewrite IH, andb_true_r. apply Nat.ltb_lt, H.
  - cbn [short_runs]. rewrite E. apply (IH 0).
Qed.

Lemma squeeze_id (s : str) :
  forall k, short_runs k s = true -> squeeze k s = s.
Proof.
  induction s as [|c s IH]; intros k H; [reflexivity|].
  cbn [squeeze short_runs] in *. destruct (Ascii.eqb c LF).
  - apply andb_true_iff in H as [Hk Hs]. apply Nat.ltb_lt in Hk.
    replace (2 <=? k) with false by (symmetry; apply Nat.leb_gt; exact Hk).
    rewrite (IH _ Hs). reflexivity.
  - rewrite (IH _ H). reflexivity.
Qed.

Lemma short_runs_weaken (s : str) :
  forall j k, j <= k -> short_runs k s = true -> short_runs j s = true.
Proof.
  induction s as [|c s IH]; intros j k Hjk H; [reflexivity|].
  cbn [short_runs] in *. destruct (Ascii.eqb c LF); [|exact H].
  apply andb_true_iff in H as [Hk Hs]. apply Nat.ltb_lt in Hk.
  apply andb_true_iff. split; [apply Nat.ltb_lt; lia|].
  apply (IH (S j) (S k)); [lia | exact Hs].
Qed.

Lemma short_runs_prefix (a b : str) :
  forall k, short_runs k (a ++ b) = true -> short_runs k a = true.
Proof.
  induction a as [|c a IH]; intros k H; [reflexivity|].
  cbn [app short_runs] in *. destruct (Ascii.eqb c LF); [|apply IH, H].
  apply andb_true_iff in H as [Hk Hs].
  rewrite Hk, (IH _ Hs). reflexivity.
Qed.

Lemma short_runs_suffix (a b : str) :
  forall k, short_runs k (a ++ b) = true -> short_runs 0 b = true.
Proof.
  induction a as [|c a IH]; intros k H.
  - apply (short_runs_weaken b (j := 0) (k := k)); [lia | exact H].
  - cbn [app short_runs] in H. destruct (Ascii.eqb c LF); [|apply (IH _ H)].
    apply andb_true_iff in H as [_ Hs]. apply (IH _ Hs).
Qed.

(** The last two stages of the cleanup, collapsing and trimming, leave a
    text that they do not change any more. *)
Lemma tidy_fixpoint (y : str) :
  let t := strip (squeeze 0 y) in strip (squeeze 0 t) = t.
Proof.
  intros t. destruct (strip_trimmed (squeeze 0 y)) as (l & r & E & _).
  fold t in E. pose proof (squeeze_short y 0) as H. cbn [Nat.min] in H.
  rewrite E in H. apply short_runs_suffix, short_runs_prefix in H.
  rewrite (squeeze_id _ _ H). apply strip_idem.
Qed.

(** ** Cleanup *)

(** X1. A cleaned text neither starts nor ends with whitespace, and holds
    no three newlines in a row. *)
Theorem cleanup_normal_form (s : str) :
  edge_free (clean_text s) = true /\ short_runs 0 (clean_text s) = true.
Proof.
  unfold clean_text. rewrite sub_blanks.
  match goal with |- context [squeeze 0 ?t] => generalize t; intros y end.
  destruct (strip_trimmed (squeeze 0 y)) as (l & r & E & _ & _ & He).
  split; [exact He|].
  pose proof (squeeze_short y 0) as H. cbn [Nat.min] in H.
  rewrite E in H. apply short_runs_suffix, short_runs_prefix in H. exact H.
Qed.

(** C2 (amended). A cleaned text in which the think-block pattern and the
    four preamble patterns find nothing more is left unchanged by a second
    cleanup. *)
Theorem cleanup_stable (s : str) :
  let t := clean_text s in
  matches flags_is THINK t = false ->
  existsb (fun pat => matches flags_is pat t) meta_patterns = false ->
  clean_text t = t.
Proof.
  intros t Hthink Hmeta.
  assert (Ht : exists y, t = strip (squeeze 0 y)).
  { eexists. unfold t, clean_text. rewrite sub_blanks. reflexivity. }
  destruct Ht as [y Hy]. clearbody t.
  unfold clean_text. rewrite (sub_no_match _ _ _ _ Hthink).
  unfold meta_patterns in *. cbn [existsb fold_left] in *.
  apply orb_false_iff in Hmeta as [H1 Hmeta].
  apply orb_false_iff in Hmeta as [H2 Hmeta].
  apply orb_false_iff in Hmeta as [H3 Hmeta].
  apply orb_false_iff in Hmeta as [H4 _].
  rewrite (sub_no_match _ _ _ _ H1), (sub_no_match _ _ _ _ H2),
    (sub_no_match _ _ _ _ H3), (sub_no_match _ _ _ _ H4).
  rewrite sub_blanks, Hy. apply tidy_fixpoint.
Qed.

Lemma cleanup_stable_witness :
  let s := lit "<think>reasoning</think>Healthy leaf." in
  matches flags_is THINK (clean_text s) = false
  /\ existsb (fun pat => matches flags_is pat (clean_text s)) meta_patterns
     = false
  /\ clean_text (clean_text s) = clean_text s.
Proof.
  intros s.
  assert (H1 : matches flags_is THINK (clean_text s) = false)
    by (vm_compute; reflexivity).
  assert (H2 : existsb (fun pat => matches flags_is pat (clean_text s))
                 meta_patterns = false) by (vm_compute; reflexivity).
  split; [exact H1|]. split; [exact H2|]. exact (cleanup_stable s H1 H2).
Defined.

(** C2 as stated fails: of two preamble paragraphs the cleanup removes the
    first only, and applied to its own output it removes the second. *)
Lemma cleanup_counterexample :
  let s := lit "I should look at the spots." ++ [LF; LF]
           ++ lit "I should name the disease." in
  clean_text s = lit "I should name the disease."
  /\ clean_text (clean_text s) = []
  /\ clean_text (clean_text s) <> clean_text s.
Proof.
  intros s.
  assert (H1 : clean_text s = lit "I should name the disease.")
    by (vm_compute; reflexivity).
  assert (H2 : clean_text (clean_text s) = []) by (vm_compute; reflexivity).
  split; [exact H1|]. split; [exact H2|]. rewrite H2, H1. discriminate.
Qed.

(** C9. The cleanup of ["<think>reasoning</think>Healthy leaf."] is
    ["Healthy leaf."]. *)
Theorem think_block_removed :
  clean_model_text (VStr (lit "<think>reasoning</think>Healthy leaf."))
  = lit "Healthy leaf.".
Proof. vm_compute. reflexivity. Qed.

(** ** Validation *)

Section Validation.

Variables (cfg : Config) (w : World) (file : UploadFile) (prompt : str).

Lemma analyze_no_key :
  key_configured (PERPLEXITY_API_KEY cfg) = false ->
  run (analyze cfg w file prompt)
  = ([], inl (HTTPException 500
                (VStr (lit "PERPLEXITY_API_KEY is not configured")))).
Proof.
  intros Hk. unfold run, analyze, bind, raise_if. rewrite Hk. reflexivity.
Qed.

Lemma analyze_bad_mime :
  key_configured (PERPLEXITY_API_KEY cfg) = true ->
  allowed_mime (content_type file) = false ->
  run (analyze cfg w file prompt)
  = ([], inl (HTTPException 400
                (VStr (lit "Only PNG and JPG/JPEG files are allowed.")))).
Proof.
  intros Hk Hm. unfold run, analyze, bind, raise_if. rewrite Hk, Hm.
  reflexivity.
Qed.

Lemma analyze_too_large :
  key_configured (PERPLEXITY_API_KEY cfg) = true ->
  allowed_mime (content_type file) = true ->
  (MAX_BYTES < len (body file))%Z ->
  run (analyze cfg w file prompt)
  = ([ReadUpload], inl (HTTPException 400
                          (VStr (lit "File too large. Max 10 MB.")))).
Proof.
  intros Hk Hm Hs. apply Z.ltb_lt in Hs.
  unfold run, analyze, bind, raise_if, attempt. rewrite Hk, Hm. simpl.
  rewrite Hs. reflexivity.
Qed.


(** C6. The validations run in a fixed order and the first failure wins:
    without a configured credential the handler fails with status 500
    whatever the MIME type and the size are; with a credential and a
    disallowed MIME type it fails with status 400 before the upload is
    read, so before its size is looked at; with an allowed MIME type and
    more than [MAX_BYTES] bytes it fails with status 400. None of these
    failures creates the uploads directory or writes a file: the trace of
    effects is empty, or the reading of the upload alone. *)
Theorem validation_order :
  (key_configured (PERPLEXITY_API_KEY cfg) = false ->
     run (analyze cfg w file prompt)
     = ([], inl (HTTPException 500
                   (VStr (lit "PERPLEXITY_API_KEY is not configured")))))
  /\ (key_configured (PERPLEXITY_API_KEY cfg) = true ->
      allowed_mime (content_type file) = false ->
      run (analyze cfg w file prompt)
      = ([], inl (HTTPException 400
                    (VStr (lit "Only PNG and JPG/JPEG files are allowed.")))))
  /\ (key_configured (PERPLEXITY_API_KEY cfg) = true ->
      allowed_mime (content_type file) = true ->
      (MAX_BYTES < len (body file))%Z ->
      run (analyze cfg w file prompt)
      = ([ReadUpload], inl (HTTPException 400
                              (VStr (lit "File too large. Max 10 MB."))))).
Proof.
  split; [exact analyze_no_key|].
  split; [exact analyze_bad_mime | exact analyze_too_large].
Qed.

End Validation.

(** The allowed MIME types are the two strings, compared exactly. *)
Lemma str_eqb_eq (a b : str) : Str.eqb a b = true <-> a = b.
Proof.
  unfold Str.eqb. destruct (list_eq_dec ascii_dec a b); split; congruence.
Qed.

Lemma allowed_mime_spec (ct : option str) :
  allowed_mime ct = true
  <-> ct = Some (lit "image/png") \/ ct = Some (lit "image/jpeg").
Proof.
  destruct ct as [s|]; simpl.
  - rewrite !orb_true_iff, !str_eqb_eq. split.
    + intros [->|[->|H]]; [left|right|discriminate]; reflexivity.
    + intros [H|H]; injection H as ->; auto.
  - split; [discriminate|]. intros [H|H]; discriminate.
Qed.

(** The size of an upload of [n] equal bytes, without building it. *)
Lemma len_repeat (b : Byte.byte) (n : Z) :
  (0 <= n)%Z -> len (repeat b (Z.to_nat n)) = n.
Proof. intros H. unfold len. rewrite repeat_length. apply Z2Nat.id, H. Qed.

Lemma validation_order_witness :
  run (analyze {| PERPLEXITY_API_KEY := None; MODEL_NAME := lit "sonar" |}
         (sample_world leaf_png (ok_response VNone)) leaf_png [])
  = ([], inl (HTTPException 500
                (VStr (lit "PERPLEXITY_API_KEY is not configured"))))
  /\ run (analyze sample_cfg (sample_world leaf_png (ok_response VNone))
            {| filename := lit "leaf.gif"; content_type := Some (lit "image/gif");
               body := [] |} [])
     = ([], inl (HTTPException 400
                   (VStr (lit "Only PNG and JPG/JPEG files are allowed."))))
  /\ run (analyze sample_cfg (sample_world leaf_png (ok_response VNone))
            (png "big.png" (repeat Byte.x00 (Z.to_nat (MAX_BYTES + 1)))) [])
     = ([ReadUpload], inl (HTTPException 400
                             (VStr (lit "File too large. Max 10 MB.")))).
Proof.
  split; [|split].
  - apply validation_order. reflexivity.
  - apply validation_order; reflexivity.
  - apply validation_order; [reflexivity | reflexivity |].
    unfold png; cbn [body]. rewrite len_repeat; unfold MAX_BYTES; lia.
Defined.

(** ** The handler past the validations *)

(** [respond] has no effect of its own. *)
Lemma respond_trace (w : World) (file : UploadFile) (ut : str)
    (resp : Response) (tr : list event) :
  respond w file ut resp tr = (tr, snd (respond w file ut resp [])).
Proof.
  unfold respond, envelope, bind, raise_if, JSONResponse, lift, ret, raise.
  destruct (400 <=? resp_status resp)%Z; [reflexivity|].
  destruct (resp_json resp) as [e|data]; [reflexivity|].
  destruct (Py.get data (lit "model") VNone) as [e|model]; [reflexivity|].
  destruct (Py.get data (lit "usage") VNone) as [e|usage]; [reflexivity|].
  match goal with |- context [Py.json_compliant ?c] =>
    destruct (Py.json_compliant c) end; reflexivity.
Qed.

Lemma analyze_upstream cfg w file prompt resp :
  reaches_upstream cfg w file prompt resp ->
  snd (run (analyze cfg w file prompt))
  = guarded (snd (respond w file (user_text prompt) resp [])).
Proof.
  intros (saved & (Hk & Hm & Hs & Hd & Hw & Hr) & Hp).
  apply Z.ltb_ge in Hs. unfold upstream_call in Hp.
  unfold run, analyze, bind, raise_if, attempt, try_except.
  rewrite Hk, Hm. cbn [negb ret]. rewrite Hs, Hd, Hw, Hr. cbn [ret].
  rewrite Hp, respond_trace. cbn [snd].
  destruct (snd (respond w file (user_text prompt) resp [])) as [[c d|e]|v];
    reflexivity.
Qed.

(** C7. With a credential configured, an upload whose declared MIME type is
    not exactly ["image/png"] or ["image/jpeg"] is answered with status
    400, whatever its bytes are; the upload is not read. *)
Theorem unsupported_media_type cfg w file prompt :
  key_configured (PERPLEXITY_API_KEY cfg) = true ->
  content_type file <> Some (lit "image/png") ->
  content_type file <> Some (lit "image/jpeg") ->
  status (run (analyze cfg w file prompt)) = 400%Z
  /\ trace (run (analyze cfg w file prompt)) = [].
Proof.
  intros Hk Hp Hj.
  assert (Hm : allowed_mime (content_type file) = false).
  { destruct (allowed_mime (content_type file)) eqn:E; [|reflexivity].
    apply allowed_mime_spec in E. tauto. }
  rewrite (analyze_bad_mime cfg w file prompt Hk Hm). split; reflexivity.
Qed.

Lemma unsupported_media_type_witness :
  let gif := {| filename := lit "leaf.gif";
                content_type := Some (lit "image/gif");
                body := list_byte_of_string "GIF89a" |} in
  status (run (analyze sample_cfg (sample_world gif (ok_response VNone)) gif []))
  = 400%Z
  /\ trace (run (analyze sample_cfg (sample_world gif (ok_response VNone)) gif []))
     = [].
Proof.
  apply unsupported_media_type;
    [reflexivity | vm_compute; discriminate | vm_compute; discriminate].
Defined.

(** The handler past the size check: the uploads directory is created. *)
Lemma analyze_persists cfg w file prompt :
  key_configured (PERPLEXITY_API_KEY cfg) = true ->
  allowed_mime (content_type file) = true ->
  (len (body file) <= MAX_BYTES)%Z ->
  exists tr r,
    run (analyze cfg w file prompt)
    = (ReadUpload :: Mkdir (uploads_dir w) :: tr, r).
Proof.
  intros Hk Hm Hs. apply Z.ltb_ge in Hs.
  unfold run, analyze, bind, raise_if, attempt, try_except.
  rewrite Hk, Hm. cbn [negb ret]. rewrite Hs. cbn [ret app].
  destruct (mkdir w (uploads_dir w)) as [e|[]];
    [eexists; eexists; reflexivity|].
  destruct (write_bytes w (saved_path w file) (body file)) as [e|[]];
    [eexists; eexists; reflexivity|].
  destruct (read_bytes w (saved_path w file)) as [e|saved];
    [eexists; eexists; reflexivity|].
  match goal with |- context [post w ?u ?h ?p] =>
    destruct (post w u h p) as [e|resp] end;
    [eexists; eexists; reflexivity|].
  rewrite respond_trace. cbn [snd].
  destruct (snd (respond w file (user_text prompt) resp [])) as [[c d|e]|v];
    eexists; eexists; reflexivity.
Qed.

(** C8. [MAX_BYTES] is 10 MiB. With a credential configured and an allowed
    MIME type, an upload of at least [10 * 1024 * 1024 + 1] bytes is
    answered with status 400 ("File too large"), and an upload of
    [10 * 1024 * 1024] bytes or fewer passes the size check: the handler
    goes on to create the uploads directory. *)
Theorem payload_too_large cfg w file prompt :
  key_configured (PERPLEXITY_API_KEY cfg) = true ->
  allowed_mime (content_type file) = true ->
  ((10 * 1024 * 1024 + 1 <= len (body file))%Z ->
     run (analyze cfg w file prompt)
     = ([ReadUpload], inl (HTTPException 400
                             (VStr (lit "File too large. Max 10 MB.")))))
  /\ ((len (body file) <= 10 * 1024 * 1024)%Z ->
      exists tr r,
        run (analyze cfg w file prompt)
        = (ReadUpload :: Mkdir (uploads_dir w) :: tr, r)).
Proof.
  intros Hk Hm. split; intros Hs.
  - apply analyze_too_large; [assumption | assumption |].
    unfold MAX_BYTES. lia.
  - apply analyze_persists; [assumption | assumption | exact Hs].
Qed.

Lemma payload_too_large_witness :
  let big := png "big.png" (repeat Byte.x00 (Z.to_nat (10 * 1024 * 1024 + 1))) in
  let full := png "full.png" (repeat Byte.x00 (Z.to_nat (10 * 1024 * 1024))) in
  run (analyze sample_cfg (sample_world big (ok_response VNone)) big [])
  = ([ReadUpload], inl (HTTPException 400
                          (VStr (lit "File too large. Max 10 MB."))))
  /\ exists tr r,
       run (analyze sample_cfg (sample_world full (ok_response VNone)) full [])
       = (ReadUpload
            :: Mkdir (uploads_dir (sample_world full (ok_response VNone)))
            :: tr, r).
Proof.
  intros big full. split.
  - apply payload_too_large; [reflexivity | reflexivity |].
    unfold big, png; cbn [body]. rewrite len_repeat; lia.
  - apply payload_too_large; [reflexivity | reflexivity |].
    unfold full, png; cbn [body]. rewrite len_repeat; lia.
Defined.

(** ** Extraction of the assistant text *)






(** ** The success envelope *)








(** The sample world lets every request of a small PNG reach the
    upstream. *)
Lemma sample_reaches (prompt : str) (resp : Response) :
  reaches_upstream sample_cfg (sample_world leaf_png resp) leaf_png prompt resp.
Proof.
  exists (body leaf_png). repeat split. vm_compute. discriminate.
Qed.













(** ** Failures of the storage and of the transport *)

(** X2. Once the validations have passed and the uploads directory exists,
    a failure to write the upload, or to read it back, is answered with
    status 500 and the cause in the detail; the upstream is not called. *)
Theorem storage_failure cfg w file prompt e :
  key_configured (PERPLEXITY_API_KEY cfg) = true ->
  allowed_mime (content_type file) = true ->
  (len (body file) <= MAX_BYTES)%Z ->
  mkdir w (uploads_dir w) = inr tt ->
  (write_bytes w (saved_path w file) (body file) = inl e ->
   run (analyze cfg w file prompt)
   = ([ReadUpload; Mkdir (uploads_dir w);
       WriteFile (saved_path w file) (body file)],
      inl (HTTPException 500
             (VStr (lit "Failed to save upload: " ++ message e)))))
  /\ (write_bytes w (saved_path w file) (body file) = inr tt ->
      read_bytes w (saved_path w file) = inl e ->
      run (analyze cfg w file prompt)
      = (storage_trace w file,
         inl (HTTPException 500
                (VStr (lit "Failed to read saved file: " ++ message e))))).
Proof.
  intros Hk Hm Hs Hd. apply Z.ltb_ge in Hs.
  split; [intros Hw | intros Hw Hr];
    unfold run, analyze, bind, raise_if, attempt, try_except;
    rewrite Hk, Hm; cbn [negb ret]; rewrite Hs, Hd, Hw; cbn [ret];
    [reflexivity | rewrite Hr; reflexivity].
Qed.

Lemma storage_failure_witness :
  let w := full_disk leaf_png (ok_response VNone) in
  run (analyze sample_cfg w leaf_png [])
  = ([ReadUpload; Mkdir (uploads_dir w);
      WriteFile (saved_path w leaf_png) (body leaf_png)],
     inl (HTTPException 500
            (VStr (lit "Failed to save upload: No space left on device")))).
Proof.
  intros w.
  apply (@storage_failure sample_cfg w leaf_png []
           (Error OtherError (lit "No space left on device")));
    try reflexivity.
  vm_compute. discriminate.
Defined.

(** X3. When the call to the upstream raises (a timeout, a transport
    error), the request fails with status 500 and the text of the
    exception as detail. *)
Theorem upstream_unreachable cfg w file prompt saved e :
  stored cfg w file saved ->
  upstream_call cfg w file prompt saved = inl e ->
  snd (run (analyze cfg w file prompt))
  = inl (HTTPException 500 (VStr (message e))).
Proof.
  intros (Hk & Hm & Hs & Hd & Hw & Hr) Hp.
  apply Z.ltb_ge in Hs. unfold upstream_call in Hp.
  unfold run, analyze, bind, raise_if, attempt, try_except.
  rewrite Hk, Hm. cbn [negb ret]. rewrite Hs, Hd, Hw, Hr. cbn [ret].
  rewrite Hp. reflexivity.
Qed.

Lemma upstream_unreachable_witness :
  snd (run (analyze sample_cfg (offline leaf_png) leaf_png []))
  = inl (HTTPException 500 (VStr (lit "timed out"))).
Proof.
  apply (@upstream_unreachable sample_cfg (offline leaf_png) leaf_png []
           (body leaf_png) (Error OtherError (lit "timed out")));
    [|reflexivity].
  repeat split. vm_compute. discriminate.
Defined.

(** ** The stored file *)

(** The only file the handler writes is the upload, under [saved_path]. *)
Lemma analyze_writes cfg w file prompt p c :
  In (WriteFile p c) (trace (run (analyze cfg w file prompt))) ->
  p = saved_path w file /\ c = body file.
Proof.
  unfold trace, run, analyze, bind, raise_if, attempt, try_except.
  destruct (key_configured (PERPLEXITY_API_KEY cfg)); cbn [negb ret raise fst];
    [|intros []].
  destruct (allowed_mime (content_type file)); cbn [negb ret raise fst];
    [|intros []].
  destruct (MAX_BYTES <? len (body file))%Z; cbn [ret raise fst app].
  { intros [H|[]]. discriminate H. }
  assert (Hin : forall tail : list event,
             (forall e, In e tail -> forall q d, e <> WriteFile q d) ->
             In (WriteFile p c)
                (ReadUpload :: Mkdir (uploads_dir w)
                   :: WriteFile (saved_path w file) (body file) :: tail) ->
             p = saved_path w file /\ c = body file).
  { intros tail Ht [H|[H|[H|H]]]; try discriminate H.
    - injection H as <- <-. split; reflexivity.
    - exfalso. exact (Ht _ H p c eq_refl). }
  destruct (mkdir w (uploads_dir w)) as [e|[]]; cbn [fst app].
  { intros [H|[H|[]]]; discriminate H. }
  destruct (write_bytes w (saved_path w file) (body file)) as [e|[]];
    cbn [fst app].
  { apply Hin. intros e0 []. }
  destruct (read_bytes w (saved_path w file)) as [e|saved]; cbn [fst app].
  { apply Hin. intros e0 [<-|[]] q d. discriminate. }
  match goal with |- context [post w ?u ?h ?pl] =>
    destruct (post w u h pl) as [e|resp] end; cbn [fst app].
  { apply Hin. intros e0 [<-|[<-|[]]] q d; discriminate. }
  rewrite respond_trace.
  destruct (snd (respond w file (user_text prompt) resp [])) as [[s d|e]|v];
    cbn [fst]; apply Hin; intros e0 [<-|[<-|[]]] q d'; discriminate.
Qed.

Lemma split_no_sep (sep : ascii) (s x : str) :
  In x (Path.split sep s) -> ~ In sep x.
Proof.
  revert x. induction s as [|c s IH]; intros x; cbn [Path.split].
  - intros [<-|[]] [].
  - destruct (Ascii.eqb_spec c sep) as [->|Hc].
    + intros [<-|H]; [intros []|exact (IH _ H)].
    + destruct (Path.split sep s) as [|h t] eqn:E.
      * intros [<-|[]] [H|[]]. exact (Hc H).
      * intros [<-|H]; [|apply IH; right; exact H].
        intros [H|H]; [exact (Hc H)|]. apply (IH h); [left; reflexivity|exact H].
Qed.

Lemma split_plain (sep : ascii) (s : str) :
  ~ In sep s -> Path.split sep s = [s].
Proof.
  induction s as [|c s IH]; intros H; cbn [Path.split]; [reflexivity|].
  destruct (Ascii.eqb_spec c sep) as [->|Hc].
  - exfalso. apply H. left. reflexivity.
  - rewrite IH; [reflexivity|]. intros Hs. apply H. right. exact Hs.
Qed.

Lemma last_in {A} (l : list A) (d : A) : l <> [] -> In (last l d) l.
Proof.
  induction l as [|a l IH]; [congruence|]. intros _.
  destruct l as [|b l]; [left; reflexivity|].
  right. apply IH. discriminate.
Qed.

(** The final component of a path holds no separator. *)
Lemma name_no_sep (s : str) : ~ In Path.SEP (Path.name (Path.parse s)).
Proof.
  unfold Path.name, Path.parse. destruct (Path.splitroot s) as [r rel].
  cbn [Path.parts].
  destruct (filter Path.component (Path.split Path.SEP rel)) as [|a l] eqn:E.
  - intros [].
  - assert (H : In (last (a :: l) []) (a :: l)) by (apply last_in; discriminate).
    rewrite <- E in H at 2. apply filter_In in H as [H _].
    exact (split_no_sep _ _ _ H).
Qed.

Lemma digits_stamp (n : N) : forallb stamp_char (digits n) = true.
Proof.
  unfold digits. generalize (N.to_uint n) as u.
  induction u; cbn [NilEmpty.string_of_uint list_ascii_of_string forallb];
    try rewrite IHu; reflexivity.
Qed.

Lemma zfill_stamp (width : nat) (s : str) :
  forallb stamp_char s = true -> forallb stamp_char (zfill width s) = true.
Proof.
  intros H. unfold zfill. rewrite forallb_app, H, andb_true_r.
  induction (width - List.length s) as [|k IH]; [reflexivity|exact IH].
Qed.

Lemma strftime_stamp (t : datetime) : forallb stamp_char (strftime t) = true.
Proof.
  unfold strftime.
  rewrite !forallb_app, !zfill_stamp by apply digits_stamp. reflexivity.
Qed.

Lemma stamp_no_sep (s : str) : forallb stamp_char s = true -> ~ In Path.SEP s.
Proof.
  intros H Hin. rewrite forallb_forall in H. apply H in Hin. discriminate Hin.
Qed.

Lemma safe_name_no_sep (w : World) (file : UploadFile) :
  ~ In Path.SEP (safe_name w file).
Proof.
  unfold safe_name. intros H.
  apply in_app_or in H as [H|H];
    [exact (stamp_no_sep _ (strftime_stamp _) H)|].
  cbn [lit list_ascii_of_string app] in H.
  destruct H as [H|H]; [discriminate H | exact (name_no_sep _ H)].
Qed.

Lemma safe_name_underscore (w : World) (file : UploadFile) :
  In "_"%char (safe_name w file).
Proof. unfold safe_name. apply in_or_app. right. left. reflexivity. Qed.

(** A plain file name is a path of one component. *)
Lemma parse_plain (s : str) :
  ~ In Path.SEP s -> In "_"%char s ->
  Path.parse s = {| Path.root := []; Path.parts := [s] |}.
Proof.
  intros Hs Hu. unfold Path.parse.
  assert (Hr : Path.splitroot s = ([], s)).
  { destruct s as [|c s]; [reflexivity|]. cbn [Path.splitroot].
    destruct (Ascii.eqb_spec c Path.SEP) as [->|]; [|reflexivity].
    exfalso. apply Hs. left. reflexivity. }
  rewrite Hr, (split_plain _ _ Hs). cbn [filter].
  assert (Hc : Path.component s = true).
  { unfold Path.component. destruct s as [|c s]; [destruct Hu|].
    cbn [truthy andb]. apply negb_true_iff.
    destruct (Str.eqb (c :: s) (lit ".")) eqn:E; [|reflexivity].
    apply str_eqb_eq in E. rewrite E in Hu.
    destruct Hu as [H|[]]. discriminate H. }
  rewrite Hc. reflexivity.
Qed.

Lemma saved_path_parts (w : World) (file : UploadFile) :
  saved_path w file
  = {| Path.root := Path.root (uploads_dir w);
       Path.parts := Path.parts (uploads_dir w) ++ [safe_name w file] |}.
Proof.
  unfold saved_path, Path.join.
  rewrite parse_plain
    by (apply safe_name_no_sep || apply safe_name_underscore).
  reflexivity.
Qed.

(** C10. Whatever the client's filename is, a file that the handler writes
    lies directly in the uploads directory, and its name is the time stamp,
    an underscore and the final path component of the filename. That name
    holds no separator and is neither ["."] nor [".."], so directory
    separators or parent-directory components of the filename cannot move
    the write out of the uploads directory. *)
Theorem upload_stays_in_uploads cfg w file prompt p c :
  In (WriteFile p c) (trace (run (analyze cfg w file prompt))) ->
  let basename := Path.name (Path.parse (filename file)) in
  let name := strftime (utcnow w) ++ lit "_" ++ basename in
  Path.parent p = uploads_dir w
  /\ Path.name p = name
  /\ Path.parts p = Path.parts (uploads_dir w) ++ [name]
  /\ ~ In "/"%char basename
  /\ ~ In "/"%char name /\ name <> lit "." /\ name <> lit "..".
Proof.
  intros H basename name. apply analyze_writes in H as [-> _].
  change name with (safe_name w file).
  rewrite saved_path_parts. unfold Path.parent, Path.name.
  cbn [Path.root Path.parts]. repeat split.
  - rewrite removelast_last. destruct (uploads_dir w); reflexivity.
  - apply last_last.
  - apply name_no_sep.
  - apply safe_name_no_sep.
  - intros E. pose proof (safe_name_underscore w file) as Hin.
    rewrite E in Hin. destruct Hin as [Hin|[]]. discriminate Hin.
  - intros E. pose proof (safe_name_underscore w file) as Hin.
    rewrite E in Hin. destruct Hin as [Hin|[Hin|[]]]; discriminate Hin.
Qed.

Lemma upload_stays_in_uploads_witness :
  let w := sample_world climbing_png (ok_response (completion (VStr (lit "ok")))) in
  let p := {| Path.root := lit "/";
              Path.parts := [lit "srv"; lit "leaf-ai"; lit "backend";
                             lit "uploads";
                             lit "20250309T140730004521Z_passwd"] |} in
  In (WriteFile p (body climbing_png))
     (trace (run (analyze sample_cfg w climbing_png [])))
  /\ Path.parent p = uploads_dir w
  /\ Path.name p = lit "20250309T140730004521Z_passwd".
Proof.
  intros w p.
  assert (Hin : In (WriteFile p (body climbing_png))
                   (trace (run (analyze sample_cfg w climbing_png []))))
    by (vm_compute; tauto).
  split; [exact Hin|].
  destruct (upload_stays_in_uploads _ _ _ _ _ _ Hin) as (H1 & H2 & _).
  split; [exact H1 | exact H2].
Defined.

(** ** The handler case by case *)

(** What [respond] makes of an answer of the upstream. *)
Lemma respond_cases w file ut resp :
  snd (respond w file ut resp [])
  = if (400 <=? resp_status resp)%Z
    then inl (http_exception w (resp_status resp) (error_detail resp))
    else match resp_json resp with
         | inl e => inl (Raised e)
         | inr data =>
             match Py.get data (lit "model") VNone with
             | inl e => inl (Raised e)
             | inr _ =>
                 let content :=
                   success_body file ut (field data (lit "model"))
                     (field data (lit "usage")) data
                     (clean_model_text (assistant_text data)) in
                 if Py.json_compliant content then inr content
                 else inl (Raised (Error ValueError
                        (lit "Out of range float values are not JSON compliant")))
             end
         end.
Proof.
  unfold respond, envelope, bind, raise_if, JSONResponse, lift, ret, raise.
  destruct (400 <=? resp_status resp)%Z; [reflexivity|].
  destruct (resp_json resp) as [e|data]; [reflexivity|].
  destruct data; try reflexivity.
  cbn [Py.get field].
  match goal with |- context [Py.json_compliant ?c] =>
    destruct (Py.json_compliant c) end; reflexivity.
Qed.

(** The whole handler as a decision tree over the answers of the world. *)
Lemma analyze_cases cfg w file prompt :
  run (analyze cfg w file prompt)
  = if negb (key_configured (PERPLEXITY_API_KEY cfg)) then
      ([], inl (HTTPException 500
                  (VStr (lit "PERPLEXITY_API_KEY is not configured"))))
    else if negb (allowed_mime (content_type file)) then
      ([], inl (HTTPException 400
                  (VStr (lit "Only PNG and JPG/JPEG files are allowed."))))
    else if (MAX_BYTES <? len (body file))%Z then
      ([ReadUpload], inl (HTTPException 400
                            (VStr (lit "File too large. Max 10 MB."))))
    else
      match mkdir w (uploads_dir w) with
      | inl e => (firstn 2 (storage_trace w file), inl (Raised e))
      | inr _ =>
      match write_bytes w (saved_path w file) (body file) with
      | inl e =>
          (firstn 3 (storage_trace w file),
           inl (HTTPException 500
                  (VStr (lit "Failed to save upload: " ++ message e))))
      | inr _ =>
      match read_bytes w (saved_path w file) with
      | inl e =>
          (storage_trace w file,
           inl (HTTPException 500
                  (VStr (lit "Failed to read saved file: " ++ message e))))
      | inr saved =>
          (storage_trace w file ++ [upstream_request cfg file prompt saved],
           match upstream_call cfg w file prompt saved with
           | inl e => inl (HTTPException 500 (VStr (message e)))
           | inr resp => guarded (snd (respond w file (user_text prompt) resp []))
           end)
      end end end.
Proof.
  unfold run, analyze, bind, raise_if, attempt, try_except, upstream_call,
    upstream_request.
  destruct (key_configured (PERPLEXITY_API_KEY cfg)); [|reflexivity].
  destruct (allowed_mime (content_type file)); [|reflexivity].
  cbn [negb ret app].
  destruct (MAX_BYTES <? len (body file))%Z; [reflexivity|]. cbn [ret].
  destruct (mkdir w (uploads_dir w)) as [e|[]]; [reflexivity|].
  destruct (write_bytes w (saved_path w file) (body file)) as [e|[]];
    [reflexivity|].
  destruct (read_bytes w (saved_path w file)) as [e|saved]; [reflexivity|].
  match goal with |- context [post w ?u ?h ?p] =>
    destruct (post w u h p) as [e|resp] end; [reflexivity|].
  rewrite respond_trace. cbn [snd].
  destruct (snd (respond w file (user_text prompt) resp [])) as [[c d|e]|v];
    reflexivity.
Qed.

(** X4. The effects of a request are a prefix of: reading the upload,
    creating the uploads directory, writing the upload, reading it back,
    and one call to the upstream, in this order; the upstream is sent the
    bytes that were read back. So a request writes at most one file, calls
    the upstream at most once, and calls it only after the upload has been
    written and read back. *)
Theorem effects_in_order cfg w file prompt :
  (exists n, trace (run (analyze cfg w file prompt))
             = firstn n (storage_trace w file))
  \/ (exists saved,
        read_bytes w (saved_path w file) = inr saved
        /\ trace (run (analyze cfg w file prompt))
           = storage_trace w file ++ [upstream_request cfg file prompt saved]).
Proof.
  rewrite analyze_cases.
  destruct (key_configured (PERPLEXITY_API_KEY cfg)); cbn [negb];
    [|left; exists 0; reflexivity].
  destruct (allowed_mime (content_type file)); cbn [negb];
    [|left; exists 0; reflexivity].
  destruct (MAX_BYTES <? len (body file))%Z; [left; exists 1; reflexivity|].
  destruct (mkdir w (uploads_dir w)) as [e|[]]; [left; exists 2; reflexivity|].
  destruct (write_bytes w (saved_path w file) (body file)) as [e|[]];
    [left; exists 3; reflexivity|].
  destruct (read_bytes w (saved_path w file)) as [e|saved];
    [left; exists 4; reflexivity|].
  right. exists saved. split; reflexivity.
Qed.

(** X5. The status of the answer is 200, 400 or 500, or else it is the
    status of an answer of the upstream that is 400 or more. *)
Theorem status_codes cfg w file prompt :
  status (run (analyze cfg w file prompt)) = 200%Z
  \/ status (run (analyze cfg w file prompt)) = 400%Z
  \/ status (run (analyze cfg w file prompt)) = 500%Z
  \/ exists saved resp,
       upstream_call cfg w file prompt saved = inr resp
       /\ (400 <= resp_status resp)%Z
       /\ status (run (analyze cfg w file prompt)) = resp_status resp.
Proof.
  rewrite analyze_cases. unfold status.
  destruct (key_configured (PERPLEXITY_API_KEY cfg)); cbn [negb]; [|auto].
  destruct (allowed_mime (content_type file)); cbn [negb]; [|auto].
  destruct (MAX_BYTES <? len (body file))%Z; [auto|].
  destruct (mkdir w (uploads_dir w)) as [e|[]]; [auto|].
  destruct (write_bytes w (saved_path w file) (body file)) as [e|[]]; [auto|].
  destruct (read_bytes w (saved_path w file)) as [e|saved]; [auto|].
  destruct (upstream_call cfg w file prompt saved) as [e|resp] eqn:Ec; [auto|].
  cbn [snd]. rewrite respond_cases.
  destruct (Z.leb_spec 400 (resp_status resp)) as [Hs|Hs].
  - assert (E : guarded (inl (http_exception w (resp_status resp)
                                (error_detail resp)))
                = inl (HTTPException 500
                         (VStr (repr_int (resp_status resp)
                                ++ lit " is not a valid HTTPStatus")))
                \/ exists d, guarded (inl (http_exception w (resp_status resp)
                                             (error_detail resp)))
                             = inl (HTTPException (resp_status resp) d)).
    { unfold http_exception.
      destruct (error_detail resp); try (right; eexists; reflexivity).
      destruct (phrase w (resp_status resp));
        [right; eexists; reflexivity | left; reflexivity]. }
    destruct E as [->|[d ->]]; [auto|].
    cbn [Py.json_compliant forallb snd]. rewrite andb_true_r.
    destruct (Py.json_compliant d); [|auto].
    right; right; right. exists saved, resp. auto.
  - destruct (resp_json resp) as [e|data]; [auto|].
    destruct (Py.get data (lit "model") VNone); [auto|]. cbn zeta.
    match goal with |- context [Py.json_compliant ?c] =>
      destruct (Py.json_compliant c) end; auto.
Qed.

Lemma success_body_raw file ut model usage data message :
  Py.json_compliant (success_body file ut model usage data message) = true ->
  Py.json_compliant data = true.
Proof.
  unfold success_body. cbn [Py.json_compliant forallb snd].
  rewrite !andb_true_r, !andb_true_iff. tauto.
Qed.

(** X6. The handler answers 200 only if the validations passed, the upload
    was stored and read back, and the upstream answered with a status
    below 400 and a body that parses to a JSON object without infinite or
    NaN numbers. The effects are then the five of a full request, and the
    body is the success envelope built from that answer. *)
Theorem success_only_if cfg w file prompt :
  status (run (analyze cfg w file prompt)) = 200%Z ->
  exists saved resp data,
    stored cfg w file saved
    /\ upstream_call cfg w file prompt saved = inr resp
    /\ (resp_status resp < 400)%Z
    /\ resp_json resp = inr data
    /\ Py.isdict data = true /\ Py.json_compliant data = true
    /\ run (analyze cfg w file prompt)
       = (storage_trace w file ++ [upstream_request cfg file prompt saved],
          inr (success_body file (user_text prompt) (field data (lit "model"))
                 (field data (lit "usage")) data
                 (clean_model_text (assistant_text data)))).
Proof.
  rewrite analyze_cases. unfold status, stored.
  destruct (key_configured (PERPLEXITY_API_KEY cfg)); cbn [negb snd];
    [|discriminate].
  destruct (allowed_mime (content_type file)); cbn [negb snd]; [|discriminate].
  destruct (Z.ltb_spec MAX_BYTES (len (body file))) as [Hl|Hl];
    cbn [snd]; [discriminate|].
  destruct (mkdir w (uploads_dir w)) as [e|[]]; cbn [snd]; [discriminate|].
  destruct (write_bytes w (saved_path w file) (body file)) as [e|[]];
    cbn [snd]; [discriminate|].
  destruct (read_bytes w (saved_path w file)) as [e|saved];
    cbn [snd]; [discriminate|].
  destruct (upstream_call cfg w file prompt saved) as [e|resp] eqn:Ec;
    [discriminate|].
  rewrite respond_cases.
  destruct (Z.leb_spec 400 (resp_status resp)) as [Hs|Hs].
  { unfold http_exception.
    destruct (error_detail resp); try destruct (phrase w (resp_status resp));
      cbn [guarded];
      match goal with |- context [Py.json_compliant ?c] =>
        destruct (Py.json_compliant c) end;
      intros H; first [lia | discriminate H]. }
  destruct (resp_json resp) as [e|data] eqn:Ej; [discriminate|].
  destruct data as [| | | | | |d]; try discriminate.
  cbn [Py.get]. cbn zeta.
  match goal with |- context [Py.json_compliant ?c] =>
    destruct (Py.json_compliant c) eqn:Ecomp end; [|discriminate].
  intros _. exists saved, resp, (VDict d).
  repeat split; try assumption; try reflexivity.
  exact (success_body_raw _ _ _ _ _ _ Ecomp).
Qed.

Lemma success_only_if_witness :
  let data := completion (VStr (lit "Healthy leaf.")) in
  let w := sample_world leaf_png (ok_response data) in
  exists saved resp data,
    stored sample_cfg w leaf_png saved
    /\ upstream_call sample_cfg w leaf_png [] saved = inr resp
    /\ (resp_status resp < 400)%Z
    /\ resp_json resp = inr data
    /\ Py.isdict data = true /\ Py.json_compliant data = true
    /\ run (analyze sample_cfg w leaf_png [])
       = (storage_trace w leaf_png
            ++ [upstream_request sample_cfg leaf_png [] saved],
          inr (success_body leaf_png (user_text []) (field data (lit "model"))
                 (field data (lit "usage")) data
                 (clean_model_text (assistant_text data)))).
Proof.
  intros data w. apply (@success_only_if sample_cfg w leaf_png []).
  vm_compute. reflexivity.
Defined.

(** X7. When the upstream answers with a status below 400 and a body that
    does not parse as JSON, the request fails with status 500 and the text
    of the parse error as detail. *)
Theorem unparsable_answer cfg w file prompt resp e :
  reaches_upstream cfg w file prompt resp ->
  (resp_status resp < 400)%Z ->
  resp_json resp = inl e ->
  snd (run (analyze cfg w file prompt))
  = inl (HTTPException 500 (VStr (message e))).
Proof.
  intros Hu Hs Hj. apply Z.leb_gt in Hs.
  rewrite (analyze_upstream Hu), respond_cases, Hs, Hj. reflexivity.
Qed.

Lemma unparsable_answer_witness :
  snd (run (analyze sample_cfg (sample_world leaf_png html_page) leaf_png []))
  = inl (HTTPException 500
           (VStr (lit "Expecting value: line 1 column 1 (char 0)"))).
Proof.
  apply (@unparsable_answer sample_cfg (sample_world leaf_png html_page)
           leaf_png [] html_page
           (Error ValueError (lit "Expecting value: line 1 column 1 (char 0)")));
    [apply sample_reaches | reflexivity | reflexivity].
Defined.

(** ** File names and prompts *)

Lemma split_nonempty (sep : ascii) (s : str) : Path.split sep s <> [].
Proof.
  destruct s as [|c s]; cbn [Path.split]; [discriminate|].
  destruct (Ascii.eqb c sep); [discriminate|].
  destruct (Path.split sep s); discriminate.
Qed.

Lemma split_app (sep : ascii) (a b : str) :
  Path.split sep (a ++ sep :: b) = Path.split sep a ++ Path.split sep b.
Proof.
  induction a as [|c a IH]; cbn [app Path.split].
  - rewrite Ascii.eqb_refl. reflexivity.
  - rewrite IH. destruct (Ascii.eqb c sep); [reflexivity|].
    destruct (Path.split sep a) as [|h t] eqn:E; [|reflexivity].
    exfalso. exact (split_nonempty _ _ E).
Qed.

Lemma lstrip_sep_app (d b : str) :
  Path.lstrip_sep (d ++ Path.SEP :: b)
  = if forallb (Ascii.eqb Path.SEP) d then Path.lstrip_sep b
    else Path.lstrip_sep d ++ Path.SEP :: b.
Proof.
  induction d as [|c d IH]; cbn [app Path.lstrip_sep forallb].
  - rewrite Ascii.eqb_refl. reflexivity.
  - rewrite (Ascii.eqb_sym Path.SEP c).
    destruct (Ascii.eqb c Path.SEP); [exact IH|reflexivity].
Qed.

Lemma lstrip_sep_plain (b : str) :
  ~ In Path.SEP b -> Path.lstrip_sep b = b.
Proof.
  destruct b as [|c b]; [reflexivity|]. intros H. cbn [Path.lstrip_sep].
  destruct (Ascii.eqb_spec c Path.SEP) as [->|]; [|reflexivity].
  exfalso. apply H. left. reflexivity.
Qed.

(** The relative part of a path is the path without its leading
    separators. *)
Lemma splitroot_rel (s : str) : snd (Path.splitroot s) = Path.lstrip_sep s.
Proof.
  destruct s as [|c s]; [reflexivity|]. cbn [Path.splitroot Path.lstrip_sep].
  destruct (Ascii.eqb c Path.SEP); reflexivity.
Qed.

Lemma name_of_rel (s : str) :
  Path.name (Path.parse s)
  = last (filter Path.component (Path.split Path.SEP (Path.lstrip_sep s))) [].
Proof.
  unfold Path.name, Path.parse. rewrite <- splitroot_rel.
  destruct (Path.splitroot s). reflexivity.
Qed.

(** X8. The stored name keeps the final segment of the client's filename:
    for a segment that is not empty, is not ["."] and holds no separator,
    the final component of the segment alone, and of any directory
    followed by a separator and the segment, is the segment itself. *)
Theorem basename_kept (base : str) :
  ~ In "/"%char base -> Path.component base = true ->
  Path.name (Path.parse base) = base
  /\ forall dir, Path.name (Path.parse (dir ++ "/"%char :: base)) = base.
Proof.
  intros Hs Hc. change "/"%char with Path.SEP in Hs. split.
  - rewrite name_of_rel, lstrip_sep_plain, split_plain by exact Hs.
    cbn [filter]. rewrite Hc. reflexivity.
  - intros dir. rewrite name_of_rel.
    change "/"%char with Path.SEP. rewrite lstrip_sep_app.
    destruct (forallb (Ascii.eqb Path.SEP) dir).
    + rewrite lstrip_sep_plain, split_plain by exact Hs.
      cbn [filter]. rewrite Hc. reflexivity.
    + rewrite split_app, filter_app, (split_plain _ _ Hs). cbn [filter].
      rewrite Hc. apply last_last.
Qed.

Lemma basename_kept_witness :
  Path.name (Path.parse (lit "leaf.png")) = lit "leaf.png"
  /\ Path.name (Path.parse (lit "../../tmp/./" ++ "/"%char :: lit "leaf.png"))
     = lit "leaf.png".
Proof.
  assert (H : ~ In "/"%char (lit "leaf.png")).
  { vm_compute. intuition discriminate. }
  destruct (@basename_kept (lit "leaf.png") H eq_refl) as [H1 H2].
  split; [exact H1 | exact (H2 (lit "../../tmp/./"))].
Defined.

(** X9. The resolved prompt, which is sent to the upstream and echoed in
    the envelope, never starts or ends with whitespace. *)
Theorem user_text_edge_free (prompt : str) :
  edge_free (user_text prompt) = true.
Proof.
  unfold user_text. destruct (truthy prompt); [|reflexivity].
  destruct (strip_trimmed prompt) as (l & r & _ & _ & _ & H). exact H.
Qed.

(** ** Base64 *)

Lemma list_ind3 {A} (P : list A -> Prop) :
  P [] -> (forall a, P [a]) -> (forall a b, P [a; b]) ->
  (forall a b c l, P l -> P (a :: b :: c :: l)) ->
  forall l, P l.
Proof.
  intros H0 H1 H2 H3.
  assert (H : forall l, P l /\ (forall a, P (a :: l)) /\ (forall a b, P (a :: b :: l))).
  { induction l as [|x l (IH0 & IH1 & IH2)]; [auto|].
    split; [apply IH1|]. split; [intros a; apply IH2|]. intros a b.
    apply H3, IH0. }
  intros l. apply H.
Qed.

Lemma alphabet_index (j : nat) :
  j < 64 ->
  index_of (nth j b64_alphabet "="%char) b64_alphabet = N.of_nat j
  /\ Ascii.eqb (nth j b64_alphabet "="%char) "=" = false
  /\ b64_text_char (nth j b64_alphabet "="%char) = true.
Proof.
  intros H. do 64 (destruct j as [|j]; [repeat split; reflexivity|]). lia.
Qed.

Lemma b64_char_index (n : N) : b64_index (b64_char n) = (n mod 64)%N.
Proof.
  unfold b64_index, b64_char.
  assert (H : N.to_nat (n mod 64) < 64)
    by (pose proof (N.mod_upper_bound n 64); lia).
  destruct (alphabet_index H) as [-> _]. lia.
Qed.

Lemma b64_char_not_pad (n : N) : Ascii.eqb (b64_char n) "=" = false.
Proof.
  unfold b64_char.
  assert (H : N.to_nat (n mod 64) < 64)
    by (pose proof (N.mod_upper_bound n 64); lia).
  apply (alphabet_index H).
Qed.

Lemma b64_char_text (n : N) : b64_text_char (b64_char n) = true.
Proof.
  unfold b64_char.
  assert (H : N.to_nat (n mod 64) < 64)
    by (pose proof (N.mod_upper_bound n 64); lia).
  apply (alphabet_index H).
Qed.

Lemma byte_of_to_N (a : Byte.byte) (n : N) :
  (n mod 256 = Byte.to_N a)%N -> byte_of n = a.
Proof. intros H. unfold byte_of. rewrite H, Byte.of_to_N. reflexivity. Qed.

Lemma sextets3 (x y z : N) :
  (x <= 255 -> y <= 255 -> z <= 255 ->
   let n := x * 65536 + y * 256 + z in
   let m := (n / 262144) mod 64 * 262144 + (n / 4096) mod 64 * 4096
            + (n / 64) mod 64 * 64 + n mod 64 in
   (m / 65536) mod 256 = x /\ (m / 256) mod 256 = y /\ m mod 256 = z)%N.
Proof. intros Hx Hy Hz n m. subst n m. repeat split; euclid. Qed.

Lemma sextets2 (x y : N) :
  (x <= 255 -> y <= 255 ->
   let n := x * 65536 + y * 256 in
   let m := (n / 262144) mod 64 * 262144 + (n / 4096) mod 64 * 4096
            + (n / 64) mod 64 * 64 in
   (m / 65536) mod 256 = x /\ (m / 256) mod 256 = y)%N.
Proof. intros Hx Hy n m. subst n m. repeat split; euclid. Qed.

Lemma sextets1 (x : N) :
  (x <= 255 ->
   let n := x * 65536 in
   let m := (n / 262144) mod 64 * 262144 + (n / 4096) mod 64 * 4096 in
   (m / 65536) mod 256 = x)%N.
Proof. intros Hx n m. subst n m. euclid. Qed.

Lemma b64_roundtrip (bs : bytes) : b64decode (b64encode bs) = bs.
Proof.
  induction bs as [|a|a b|a b c bs IH] using list_ind3.
  - reflexivity.
  - cbn [b64encode b64decode]. rewrite Ascii.eqb_refl.
    rewrite !b64_char_index. f_equal.
    apply byte_of_to_N, (@sextets1 (Byte.to_N a)), Byte.to_N_bounded.
  - cbn [b64encode b64decode]. rewrite b64_char_not_pad, Ascii.eqb_refl.
    rewrite !b64_char_index.
    destruct (@sextets2 (Byte.to_N a) (Byte.to_N b)
                (Byte.to_N_bounded a) (Byte.to_N_bounded b)) as [H1 H2].
    f_equal; [|f_equal]; apply byte_of_to_N; assumption.
  - cbn [b64encode b64decode app]. rewrite !b64_char_not_pad.
    rewrite !b64_char_index, IH.
    destruct (@sextets3 (Byte.to_N a) (Byte.to_N b) (Byte.to_N c)
                (Byte.to_N_bounded a) (Byte.to_N_bounded b)
                (Byte.to_N_bounded c)) as (H1 & H2 & H3).
    f_equal; [|f_equal; [|f_equal]]; apply byte_of_to_N; assumption.
Qed.

(** X10. The base64 text that the handler puts into the data URI loses
    nothing: decoding it gives back the bytes, and two sequences of bytes
    with the same encoding are equal. *)
Theorem b64encode_lossless (bs : bytes) :
  b64decode (b64encode bs) = bs
  /\ forall bs', b64encode bs = b64encode bs' -> bs = bs'.
Proof.
  split; [apply b64_roundtrip|].
  intros bs' H. rewrite <- (b64_roundtrip bs), H. apply b64_roundtrip.
Qed.

(** X11. The base64 text has four characters for every three bytes
    begun, each of the base64 alphabet or the padding ["="]. *)
Theorem b64encode_shape (bs : bytes) :
  List.length (b64encode bs) = 4 * ((List.length bs + 2) / 3)
  /\ forallb b64_text_char (b64encode bs) = true.
Proof.
  induction bs as [|a|a b|a b c bs [IH1 IH2]] using list_ind3;
    try (split; [reflexivity|]; cbn [b64encode forallb];
         rewrite ?b64_char_text; reflexivity).
  cbn [b64encode app List.length forallb]. split.
  - rewrite IH1.
    replace (S (S (S (List.length bs))) + 2) with (List.length bs + 2 + 1 * 3)
      by lia.
    rewrite Nat.div_add by discriminate. lia.
  - rewrite !b64_char_text, IH2. reflexivity.
Qed.

(** ** Texts that the cleanup leaves alone *)

Lemma flat_map_nil {A B} (f : A -> list B) (l : list A) :
  (forall x, In x l -> f x = []) -> flat_map f l = [].
Proof.
  induction l as [|x l IH]; intros H; [reflexivity|]. cbn [flat_map].
  rewrite (H x) by (left; reflexivity). apply IH.
  intros y Hy. apply H. right. exact Hy.
Qed.

Section FirstCharacter.

Variables (fl : flags) (a : ascii).

(** A pattern that starts with a literal has no match at a position whose
    character the literal does not accept. *)
Lemma exec_first_rejected (r1 r2 : regex) (c : pos) :
  match snd c with
  | x :: _ => accepts fl (Chr a) x = false
  | [] => True
  end ->
  exec fl (Cat (Cat (One (Chr a)) r1) r2) c = [].
Proof.
  intros H. cbn [exec].
  destruct (snd c) as [|x t]; [reflexivity|]. rewrite H. reflexivity.
Qed.

Lemma search_first_rejected (r1 r2 : regex) (rest : str) :
  forall ma prev,
    (forall x, In x rest -> accepts fl (Chr a) x = false) ->
    search fl (Cat (Cat (One (Chr a)) r1) r2) ma prev rest = None.
Proof.
  induction rest as [|x rest IH]; intros ma prev H; cbn [search];
    unfold match_at; rewrite exec_first_rejected.
  - reflexivity.
  - reflexivity.
  - cbn [find]. rewrite IH; [reflexivity|].
    intros y Hy. apply H. right. exact Hy.
  - cbn [snd]. apply H. left. reflexivity.
Qed.

(** A pattern anchored at the beginning has no match further on. *)
Lemma search_anchored (r : regex) (rest : str) :
  forall ma x, search fl (Cat AtBegin r) ma (Some x) rest = None.
Proof.
  induction rest as [|y rest IH]; intros ma x; cbn [search]; unfold match_at;
    cbn [exec fst flat_map find]; [reflexivity|].
  rewrite IH. reflexivity.
Qed.

(** The positions that a run of whitespace reaches are followed by
    whitespace, by the first character that is not whitespace, or by
    nothing. *)
Lemma runs_space_heads (rest : str) :
  forall prev c', In c' (runs fl Space prev rest) ->
    match snd c' with
    | [] => True
    | x :: t => isspace x = true \/ lstrip rest = x :: t
    end.
Proof.
  induction rest as [|y rest IH]; intros prev c'; cbn [runs accepts lstrip].
  - intros [<-|[]]. exact I.
  - destruct (isspace y) eqn:E.
    + intros [<-|H]; [left; exact E|]. apply (IH _ _ H).
    + intros [<-|[]]. right. reflexivity.
Qed.

(** A preamble pattern, [^\s*] and then a literal, has no match in a text
    whose first character after the leading whitespace the literal does
    not accept. *)
Lemma search_preamble_rejected (w more : regex) (text : str) :
  (forall x, isspace x = true -> accepts fl (Chr a) x = false) ->
  match lstrip text with
  | x :: _ => accepts fl (Chr a) x = false
  | [] => True
  end ->
  search fl (Cat AtBegin (Cat (star Space) (Cat (Cat (One (Chr a)) w) more)))
    false None text = None.
Proof.
  intros Hs Hf.
  assert (Hm : match_at fl (Cat AtBegin (Cat (star Space)
                 (Cat (Cat (One (Chr a)) w) more))) false (@pair _ str None text)
               = None).
  { unfold match_at, star. cbn [exec fst snd flat_map skipn].
    rewrite app_nil_r, flat_map_nil; [reflexivity|].
    intros c' Hc. apply in_rev in Hc. apply runs_space_heads in Hc.
    apply exec_first_rejected.
    destruct (snd c') as [|x t]; [exact I|].
    destruct Hc as [Hc|Hc]; [apply Hs, Hc|]. rewrite Hc in Hf. exact Hf. }
  destruct text as [|x text]; cbn [search]; rewrite Hm; [reflexivity|].
  rewrite search_anchored. reflexivity.
Qed.

End FirstCharacter.

(** Under IGNORECASE the literal [<] accepts [<] only. *)
Lemma accepts_lt (x : ascii) :
  x <> "<"%char -> accepts flags_is (Chr "<") x = false.
Proof.
  intros H. destruct (accepts flags_is (Chr "<") x) eqn:E; [|reflexivity].
  exfalso. apply H. revert E. clear H. by_cases_on x.
Qed.

Lemma space_not_letter (x : ascii) :
  isspace x = true ->
  accepts flags_is (Chr "t") x = false
  /\ accepts flags_is (Chr "i") x = false
  /\ accepts flags_is (Chr "b") x = false.
Proof.
  destruct x as [[] [] [] [] [] [] [] []]; vm_compute;
    first [intros H; discriminate H | intros _; repeat split].
Qed.

Lemma plain_not_letter (x : ascii) :
  negb (existsb (Ascii.eqb x) (lit "tTiIbB")) = true ->
  accepts flags_is (Chr "t") x = false
  /\ accepts flags_is (Chr "i") x = false
  /\ accepts flags_is (Chr "b") x = false.
Proof.
  destruct x as [[] [] [] [] [] [] [] []]; vm_compute;
    first [intros H; discriminate H | intros _; repeat split].
Qed.

Lemma think_absent (text : str) :
  ~ In "<"%char text -> matches flags_is THINK text = false.
Proof.
  intros H. unfold matches.
  change THINK with (Cat (Cat (One (Chr "<"%char)) (word (lit "think>")))
                       (Cat (lazy_star Dot) (Cat (word (lit "</think>")) Eps))).
  rewrite search_first_rejected; [reflexivity|].
  intros x Hx. apply accepts_lt. intros ->. exact (H Hx).
Qed.

Lemma preambles_absent (text : str) :
  starts_plain text = true ->
  existsb (fun pat => matches flags_is pat text) meta_patterns = false.
Proof.
  unfold starts_plain. intros H.
  assert (Hf : forall a, In a [ "t"; "i"; "b" ]%char ->
                 match lstrip text with
                 | x :: _ => accepts flags_is (Chr a) x = false
                 | [] => True
                 end).
  { intros a Ha. destruct (lstrip text) as [|x t]; [exact I|].
    destruct (plain_not_letter x H) as (H1 & H2 & H3).
    destruct Ha as [<-|[<-|[<-|[]]]]; assumption. }
  assert (Hs : forall a, In a [ "t"; "i"; "b" ]%char ->
                 forall x, isspace x = true -> accepts flags_is (Chr a) x = false).
  { intros a Ha x Hx. destruct (space_not_letter x Hx) as (H1 & H2 & H3).
    destruct Ha as [<-|[<-|[<-|[]]]]; assumption. }
  unfold meta_patterns, matches. cbn [existsb].
  repeat match goal with
  | |- context [search flags_is (seq (AtBegin :: star Space :: word (lit ?s) :: ?m))
                  false None text] =>
      let a := eval vm_compute in (hd "x"%char (lit s)) in
      let w := eval vm_compute in (tl (lit s)) in
      change (seq (AtBegin :: star Space :: word (lit s) :: m))
        with (Cat AtBegin (Cat (star Space)
                (Cat (Cat (One (Chr a)) (word w)) (seq m))));
      rewrite (@search_preamble_rejected flags_is a (word w) (seq m) text)
        by (first [apply Hs | apply Hf]; cbn; tauto)
  end.
  reflexivity.
Qed.

(** X12. A text of code points below 256 (as all strings of this
    development) that holds no [<] and whose first character after the
    leading whitespace is none of t, i and b (in either case) loses no
    think block and no preamble: its cleanup only shortens runs of three
    newlines or more to two and trims the ends. If moreover it has no such
    run and no whitespace at its ends, the cleanup returns it unchanged. *)
Theorem plain_text_kept (text : str) :
  ~ In "<"%char text -> starts_plain text = true ->
  clean_text text = strip (squeeze 0 text)
  /\ (short_runs 0 text = true -> edge_free text = true ->
      clean_text text = text).
Proof.
  intros Hlt Hp.
  assert (E : clean_text text = strip (squeeze 0 text)).
  { pose proof (@preambles_absent text Hp) as Hm.
    unfold clean_text. rewrite (sub_no_match _ _ _ _ (@think_absent text Hlt)).
    unfold meta_patterns in *. cbn [existsb fold_left] in *.
    apply orb_false_iff in Hm as [H1 Hm].
    apply orb_false_iff in Hm as [H2 Hm].
    apply orb_false_iff in Hm as [H3 Hm].
    apply orb_false_iff in Hm as [H4 _].
    rewrite (sub_no_match _ _ _ _ H1), (sub_no_match _ _ _ _ H2),
      (sub_no_match _ _ _ _ H3), (sub_no_match _ _ _ _ H4).
    rewrite sub_blanks. reflexivity. }
  split; [exact E|]. intros Hr He.
  rewrite E, (squeeze_id _ _ Hr). apply strip_id, He.
Qed.

Lemma plain_text_kept_witness :
  let text := lit "Leaf rust (Puccinia)." ++ [LF; LF] ++ lit "Remove the leaves." in
  clean_text text = strip (squeeze 0 text) /\ clean_text text = text.
Proof.
  intros text.
  assert (H : ~ In "<"%char text) by (vm_compute; intuition discriminate).
  destruct (@plain_text_kept text H eq_refl) as [H1 H2].
  split; [exact H1 | apply H2; reflexivity].
Defined.

(** ** Patterns that do not look behind *)

Section PrevFree.

Variable fl : flags.

Lemma runs_prev (k : item) (s : str) :
  forall p p', map snd (runs fl k p s) = map snd (runs fl k p' s).
Proof.
  destruct s as [|x s]; intros p p'; reflexivity.
Qed.

Lemma flat_map_prev (f : pos -> list pos) :
  (forall p p' s, map snd (f (p, s)) = map snd (f (p', s))) ->
  forall l l', map snd l = map snd l' ->
               map snd (flat_map f l) = map snd (flat_map f l').
Proof.
  intros Hf. induction l as [|[p s] l IH]; intros [|[p' s'] l'] H;
    try discriminate H; [reflexivity|].
  cbn [map snd] in H. injection H as -> H.
  cbn [flat_map]. rewrite !map_app. f_equal; [apply Hf | exact (IH _ H)].
Qed.

Lemma exec_prev (r : regex) :
  prev_free r = true ->
  forall p p' s, map snd (exec fl r (p, s)) = map snd (exec fl r (p', s)).
Proof.
  induction r as [k | | | | r1 IH1 r2 IH2 | r1 IH1 r2 IH2 | greedy lo k |];
    cbn [prev_free]; intros H p p' s; try discriminate H.
  - cbn [exec snd]. destruct s as [|x s]; [reflexivity|].
    destruct (accepts fl k x); reflexivity.
  - cbn [exec snd]. destruct s as [|x [|y s]]; try reflexivity.
    destruct (Ascii.eqb x LF); reflexivity.
  - apply andb_true_iff in H as [H1 H2]. cbn [exec].
    apply flat_map_prev; [exact (IH2 H2) | exact (IH1 H1 p p' s)].
  - apply andb_true_iff in H as [H1 H2]. cbn [exec].
    rewrite !map_app. f_equal; [exact (IH1 H1 p p' s) | exact (IH2 H2 p p' s)].
  - cbn [exec fst snd].
    assert (E : map snd (skipn lo (runs fl k p s))
                = map snd (skipn lo (runs fl k p' s)))
      by (rewrite <- !skipn_map; f_equal; apply runs_prev).
    destruct greedy; [rewrite !map_rev; f_equal; exact E | exact E].
  - reflexivity.
Qed.

Lemma find_prev (f : str -> bool) (l : list pos) :
  forall l', map snd l = map snd l' ->
    option_map snd (find (fun c : pos => f (snd c)) l)
    = option_map snd (find (fun c : pos => f (snd c)) l').
Proof.
  induction l as [|[p s] l IH]; intros [|[p' s'] l'] H; try discriminate H;
    [reflexivity|].
  cbn [map snd] in H. injection H as -> H. cbn [find snd].
  destruct (f s'); [reflexivity | exact (IH _ H)].
Qed.

Lemma match_at_prev (r : regex) (ma : bool) (p p' : option ascii) (s : str) :
  prev_free r = true ->
  option_map snd (match_at fl r ma (p, s))
  = option_map snd (match_at fl r ma (p', s)).
Proof.
  intros H. unfold match_at, after. cbn [snd].
  exact (find_prev (fun t => negb ma || (List.length t <? List.length s))
           _ _ (exec_prev r H p p' s)).
Qed.

Lemma sub_loop_prev (r : regex) (repl : str) (fuel : nat) :
  prev_free r = true ->
  forall ma p p' s,
    sub_loop fl fuel r repl ma p s = sub_loop fl fuel r repl ma p' s.
Proof.
  intros H. induction fuel as [|fuel IH]; intros ma p p' s; [reflexivity|].
  cbn [sub_loop].
  assert (E : match search fl r ma p s, search fl r ma p' s with
              | Some (sk, c), Some (sk', c') => sk = sk' /\ snd c = snd c'
              | None, None => True
              | _, _ => False
              end).
  { pose proof (match_at_prev r ma p p' s H) as Hm.
    destruct s as [|x s]; cbn [search];
      destruct (match_at fl r ma (@pair _ str p _)) as [c|];
      destruct (match_at fl r ma (@pair _ str p' _)) as [c'|];
      cbn [option_map] in Hm; try discriminate Hm;
      try (injection Hm as Hm; split; [reflexivity | exact Hm]);
      try exact I.
    destruct (search fl r false (Some x) s) as [[sk c]|]; [|exact I].
    split; reflexivity. }
  destruct (search fl r ma p s) as [[sk c]|],
           (search fl r ma p' s) as [[sk' c']|]; try contradiction;
    [|reflexivity].
  destruct E as [-> E]. unfold after. rewrite E.
  do 2 f_equal. apply IH.
Qed.

End PrevFree.

(** ** Think blocks *)

Section Literals.

Variable fl : flags.

(** A literal word matches the text that its characters accept, one for
    one. *)
Lemma exec_word (w : str) :
  forall pfx t p,
    Forall2 (fun c x => accepts fl (Chr c) x = true) w pfx ->
    map snd (exec fl (word w) (p, pfx ++ t)) = [t].
Proof.
  induction w as [|c w IH]; intros pfx t p H; inversion H; subst;
    [reflexivity|].
  cbn [word exec snd app].
  match goal with E : accepts fl (Chr c) _ = true |- _ => rewrite E end.
  cbn [flat_map]. rewrite app_nil_r. apply IH. assumption.
Qed.

(** A search skips the characters that the first literal of the pattern
    does not accept. *)
Lemma search_skip (a : ascii) (r1 r2 : regex) (pre rest : str) :
  (forall x, In x pre -> accepts fl (Chr a) x = false) ->
  forall prev,
    exists prev',
      search fl (Cat (Cat (One (Chr a)) r1) r2) false prev (pre ++ rest)
      = match search fl (Cat (Cat (One (Chr a)) r1) r2) false prev' rest with
        | Some (sk, c) => Some (pre ++ sk, c)
        | None => None
        end.
Proof.
  induction pre as [|x pre IH]; intros H prev.
  - exists prev. cbn [app].
    destruct (search fl _ false prev rest) as [[sk c]|]; reflexivity.
  - destruct (IH (fun y Hy => H y (or_intror Hy)) (Some x)) as [prev' E].
    exists prev'. cbn [app search]. unfold match_at.
    rewrite exec_first_rejected by (cbn [snd]; apply H; left; reflexivity).
    cbn [find]. rewrite E.
    destruct (search fl _ false prev' rest) as [[sk c]|]; reflexivity.
Qed.

(** A lazy [.*?] under DOTALL goes over the characters at which what
    follows it cannot start. *)
Lemma lazy_dot_skip (r : regex) (body t : str) :
  dotall fl = true ->
  (forall x p t', In x body -> exec fl r (p, x :: t') = []) ->
  forall p,
    exists p',
      exec fl (Cat (lazy_star Dot) r) (@pair _ str p (body ++ t))
      = flat_map (exec fl r) (runs fl Dot p' t).
Proof.
  intros Hd. unfold lazy_star. cbn [exec fst snd skipn].
  induction body as [|x body IH]; intros H p.
  - exists p. reflexivity.
  - destruct (IH (fun y q t' Hy => H y q t' (or_intror Hy)) (Some x))
      as [p' E].
    exists p'. cbn [app runs accepts]. rewrite Hd. cbn [orb flat_map].
    rewrite H by (left; reflexivity). exact E.
Qed.

End Literals.

Lemma caseless_word (w pfx : str) :
  map lower pfx = map lower w ->
  Forall2 (fun c x => accepts flags_is (Chr c) x = true) w pfx.
Proof.
  revert pfx. induction w as [|c w IH]; intros [|x pfx] H; try discriminate H;
    constructor.
  - cbn [map] in H. injection H as H _. cbn [accepts ignorecase flags_is].
    rewrite H. apply Ascii.eqb_refl.
  - apply IH. cbn [map] in H. injection H as _ H. exact H.
Qed.

Lemma exec_cat (fl : flags) (r1 r2 : regex) (c : pos) :
  exec fl (Cat r1 r2) c = flat_map (exec fl r2) (exec fl r1 c).
Proof. reflexivity. Qed.

Lemma exec_then_eps (fl : flags) (r : regex) (c : pos) :
  exec fl (Cat r Eps) c = exec fl r c.
Proof.
  rewrite exec_cat. induction (exec fl r c) as [|x l IH]; [reflexivity|].
  cbn [flat_map]. rewrite IH. reflexivity.
Qed.

(** The think-block pattern matches a block whose content holds no [<],
    up to the end of the block. *)
Lemma think_match (opening body closing post : str) (p : option ascii) :
  map lower opening = lit "<think>" -> map lower closing = lit "</think>" ->
  ~ In "<"%char body ->
  option_map snd
    (match_at flags_is THINK false (p, opening ++ body ++ closing ++ post))
  = Some post.
Proof.
  intros Ho Hc Hb.
  pose (R := Cat (word (lit "</think>")) Eps).
  assert (Hhd : forall l : list pos,
            option_map snd (find (fun c' : pos => negb false
               || (List.length (after c')
                   <? List.length (opening ++ body ++ closing ++ post))) l)
            = hd_error (map snd l)).
  { intros [|c l]; reflexivity. }
  unfold match_at. cbn [after snd]. rewrite Hhd.
  change THINK with (Cat (word (lit "<think>")) (Cat (lazy_star Dot) R)).
  rewrite exec_cat.
  pose proof (@exec_word flags_is (lit "<think>") opening
                (body ++ closing ++ post) p
                (@caseless_word (lit "<think>") opening Ho)) as Hw.
  match type of Hw with map snd ?e = _ =>
    destruct e as [|[p1 s1] [|? ?]]; try discriminate Hw end.
  cbn [map snd] in Hw. injection Hw as ->.
  cbn [flat_map]. rewrite app_nil_r.
  assert (Hr : forall x q t', In x body -> exec flags_is R (q, x :: t') = []).
  { intros x q t' Hx.
    change R with (Cat (Cat (One (Chr "<"%char)) (word (lit "/think>"))) Eps).
    apply exec_first_rejected. cbn [snd].
    apply accepts_lt. intros ->. exact (Hb Hx). }
  destruct (@lazy_dot_skip flags_is R body (closing ++ post) eq_refl Hr p1)
    as [p' E].
  rewrite E.
  destruct closing as [|c0 closing]; [discriminate Hc|].
  pose proof (@exec_word flags_is (lit "</think>") (c0 :: closing) post p'
                (@caseless_word (lit "</think>") (c0 :: closing) Hc)) as Hw.
  cbn [app runs flat_map]. rewrite map_app. unfold R at 1.
  rewrite exec_then_eps.
  assert (Hs : forall (l l' : list str) (x : str),
            l = [x] -> hd_error (l ++ l') = Some x) by (intros ? ? ? ->; reflexivity).
  apply Hs. exact Hw.
Qed.

(** The removal of think blocks leaves a prefix without [<] in place. *)
Lemma sub_think_prefix (pre rest : str) :
  ~ In "<"%char pre ->
  sub flags_is THINK [] (pre ++ rest) = pre ++ sub flags_is THINK [] rest.
Proof.
  intros Hp.
  assert (Hr : forall x, In x pre -> accepts flags_is (Chr "<") x = false).
  { intros x Hx. apply accepts_lt. intros ->. exact (Hp Hx). }
  assert (H : forall fuel prev,
             sub_loop flags_is fuel THINK [] false prev (pre ++ rest)
             = pre ++ sub_loop flags_is fuel THINK [] false None rest).
  { intros [|fuel] prev; [reflexivity|].
    destruct (@search_skip flags_is "<"%char (word (lit "think>"))
                (Cat (lazy_star Dot) (Cat (word (lit "</think>")) Eps))
                pre rest Hr prev) as [prev' E].
    rewrite (@sub_loop_prev flags_is THINK [] (S fuel) eq_refl false None prev' rest).
    cbn [sub_loop].
    change THINK with (Cat (Cat (One (Chr "<"%char)) (word (lit "think>")))
                         (Cat (lazy_star Dot) (Cat (word (lit "</think>")) Eps))).
    rewrite E.
    destruct (search flags_is _ false prev' rest) as [[sk c]|]; [|reflexivity].
    rewrite !length_app, <- !app_assoc.
    replace (List.length (after c) + (List.length pre + List.length sk)
             =? List.length pre + List.length rest)
      with (List.length (after c) + List.length sk =? List.length rest).
    - reflexivity.
    - destruct (Nat.eqb_spec (List.length (after c) + List.length sk)
                  (List.length rest));
        symmetry; [apply Nat.eqb_eq | apply Nat.eqb_neq]; lia. }
  unfold sub at 1. rewrite H. f_equal. apply sub_fuel_enough.
  rewrite length_app. lia.
Qed.

(** A think block at the beginning of a text is removed as a whole. *)
Lemma sub_think_block (opening body closing post : str) :
  map lower opening = lit "<think>" -> map lower closing = lit "</think>" ->
  ~ In "<"%char body ->
  sub flags_is THINK [] (opening ++ body ++ closing ++ post)
  = sub flags_is THINK [] post.
Proof.
  intros Ho Hc Hb. unfold sub at 1.
  match goal with |- context [sub_loop _ (?n + 2)] =>
    replace (n + 2) with (S (n + 1)) by lia end.
  cbn [sub_loop].
  pose proof (@think_match opening body closing post None Ho Hc Hb) as Hm.
  assert (Hl : List.length opening = 7)
    by (rewrite <- (length_map lower), Ho; reflexivity).
  assert (Hs : exists c : pos,
            search flags_is THINK false None (opening ++ body ++ closing ++ post)
            = Some ([], c) /\ snd c = post).
  { destruct opening as [|o opening]; [discriminate Hl|].
    cbn [app search] in *.
    destruct (match_at flags_is THINK false _) as [c|]; [|discriminate Hm].
    cbn [option_map] in Hm. injection Hm as Hm. exists c. split; [reflexivity|exact Hm]. }
  destruct Hs as (c & -> & Ec). unfold after. rewrite Ec. cbn [app List.length].
  replace (List.length post + 0 =? _) with false
    by (symmetry; apply Nat.eqb_neq; rewrite !length_app; lia).
  rewrite (@sub_loop_prev flags_is THINK [] _ eq_refl false (fst c) None post).
  apply sub_loop_fuel; unfold rounds; rewrite ?length_app; lia.
Qed.

(** X13. A think block, with its tags in any case and a content that holds
    no [<], is removed as a whole: the text before it (if it holds no [<])
    stays, and the removal goes on after the block. So the cleanup of a
    text with such a block is the cleanup of the text without it. *)
Theorem think_block_removed_whole (pre opening body closing post : str) :
  map lower opening = lit "<think>" -> map lower closing = lit "</think>" ->
  ~ In "<"%char pre -> ~ In "<"%char body ->
  sub flags_is THINK [] (pre ++ opening ++ body ++ closing ++ post)
  = pre ++ sub flags_is THINK [] post
  /\ clean_text (pre ++ opening ++ body ++ closing ++ post)
     = clean_text (pre ++ post).
Proof.
  intros Ho Hc Hp Hb.
  assert (E : sub flags_is THINK [] (pre ++ opening ++ body ++ closing ++ post)
              = pre ++ sub flags_is THINK [] post).
  { rewrite (@sub_think_prefix pre _ Hp), (@sub_think_block opening body closing post Ho Hc Hb).
    reflexivity. }
  split; [exact E|].
  unfold clean_text. rewrite E, (@sub_think_prefix pre post Hp). reflexivity.
Qed.

Lemma think_block_removed_whole_witness :
  let pre := lit "Diagnosis: " in
  let body := lit "The spots are round." ++ [LF] ++ lit "Probably rust." in
  let post := lit "Leaf rust." in
  sub flags_is THINK [] (pre ++ lit "<Think>" ++ body ++ lit "</THINK>" ++ post)
  = pre ++ sub flags_is THINK [] post
  /\ clean_text (pre ++ lit "<Think>" ++ body ++ lit "</THINK>" ++ post)
     = clean_text (pre ++ post).
Proof.
  intros pre body post.
  apply think_block_removed_whole;
    [reflexivity | reflexivity | |]; vm_compute; intuition discriminate.
Defined.

(** ** The time stamp determines the instant *)

Lemma digits_length (n : N) :
  List.length (digits n) = Decimal.nb_digits (N.to_uint n).
Proof.
  unfold digits. generalize (N.to_uint n) as d.
  induction d; cbn [NilEmpty.string_of_uint list_ascii_of_string
                    List.length Decimal.nb_digits];
    congruence.
Qed.

Lemma of_uint_acc_lower (d : Decimal.uint) (acc : positive) :
  (N.pos acc * 10 ^ N.of_nat (Decimal.nb_digits d)
   <= N.pos (Pos.of_uint_acc d acc))%N.
Proof.
  revert acc.
  induction d; intros acc; cbn [Pos.of_uint_acc Decimal.nb_digits];
    [cbn; lia | ..];
    rewrite Nat2N.inj_succ, N.pow_succ_r';
    (eapply N.le_trans; [|apply IHd]);
    rewrite N.mul_assoc; apply N.mul_le_mono_r; lia.
Qed.

Lemma to_uint_normal (p : positive) :
  Decimal.unorm (Pos.to_uint p) = Pos.to_uint p.
Proof.
  rewrite <- DecimalPos.Unsigned.to_of, DecimalPos.Unsigned.of_to.
  reflexivity.
Qed.

(** A number below [10 ^ w] has at most [w] digits. *)
Lemma digits_bound (n : N) (w : nat) :
  (n < 10 ^ N.of_nat w)%N -> 0 < w -> List.length (digits n) <= w.
Proof.
  intros Hn Hw. rewrite digits_length.
  destruct n as [|p]; [cbn; lia|]. cbn [N.to_uint].
  pose proof (DecimalPos.Unsigned.of_to p) as Hv.
  pose proof (to_uint_normal p) as Hu.
  assert (Hl : forall l k, (1 <= N.pos k)%N ->
             N.pos p = N.pos (Pos.of_uint_acc l k) ->
             S (Decimal.nb_digits l) <= w).
  { intros l k Hk E.
    pose proof (of_uint_acc_lower l k) as Hlow. rewrite <- E in Hlow.
    assert (Hp : (10 ^ N.of_nat (Decimal.nb_digits l) < 10 ^ N.of_nat w)%N) by nia.
    apply N.pow_lt_mono_r_iff in Hp; lia. }
  destruct (Pos.to_uint p) as [|l|l|l|l|l|l|l|l|l|l] eqn:E;
    cbn [Decimal.nb_digits];
    try (cbn [Pos.of_uint] in Hv; symmetry in Hv; apply (Hl _ _ ltac:(lia) Hv)).
  - exact (False_ind _ (@DecimalPos.Unsigned.to_uint_nonnil p E)).
  - destruct (Decimal.nzhead (Decimal.D0 l)) eqn:Ez;
      try (rewrite (DecimalFacts.unorm_nzhead (Decimal.D0 l)) in Hu
             by (rewrite Ez; discriminate);
           exact (False_ind _ (@DecimalFacts.nzhead_nonzero _ _ Hu))).
    apply DecimalFacts.unorm_0 in Ez. rewrite Ez in Hu.
    injection Hu as <-. cbn. lia.
Qed.

Lemma zfill_length (w : nat) (n : N) :
  (n < 10 ^ N.of_nat w)%N -> 0 < w -> List.length (zfill w (digits n)) = w.
Proof.
  intros Hn Hw. pose proof (digits_bound Hn Hw).
  unfold zfill. rewrite length_app, repeat_length. lia.
Qed.

(** Reading a padded number gives the number back. *)
Lemma int_of_zfill (w : nat) (n : N) : int_of (zfill w (digits n)) = Some n.
Proof.
  unfold zfill. generalize (w - List.length (digits n)) as k.
  induction k as [|k IH].
  - unfold int_of, digits. cbn [repeat app].
    rewrite string_of_list_ascii_of_string, NilEmpty.usu.
    cbn [option_map]. f_equal. apply DecimalN.Unsigned.of_to.
  - revert IH. unfold int_of. cbn [repeat app string_of_list_ascii
                                    NilEmpty.uint_of_string].
    destruct (NilEmpty.uint_of_string _) as [d|]; [|intros IH; discriminate IH].
    intros IH. exact IH.
Qed.

Lemma zfill_inj (w : nat) (n m : N) :
  zfill w (digits n) = zfill w (digits m) -> n = m.
Proof.
  intros E. pose proof (int_of_zfill w n) as H.
  rewrite E, int_of_zfill in H. congruence.
Qed.

Lemma app_inj_length (A : Type) (a a' b b' : list A) :
  List.length a = List.length a' -> a ++ b = a' ++ b' -> a = a' /\ b = b'.
Proof.
  revert a'. induction a as [|x a IH]; intros [|x' a'] Hl E;
    try discriminate Hl.
  - split; [reflexivity|exact E].
  - injection Hl as Hl. injection E as -> E.
    destruct (IH a' Hl E) as [-> ->]. split; reflexivity.
Qed.

Lemma strftime_length (t : datetime) :
  valid t -> List.length (strftime t) = 22.
Proof.
  intros (Hy & Hm & Hd & Hh & Hmi & Hs & Hu). unfold strftime.
  rewrite !length_app.
  rewrite (@zfill_length 4), !(@zfill_length 2), (@zfill_length 6);
    try reflexivity; cbn; lia.
Qed.

Lemma strftime_inj (t t' : datetime) :
  valid t -> valid t' -> strftime t = strftime t' -> t = t'.
Proof.
  intros (Hy & Hm & Hd & Hh & Hmi & Hs & Hu)
         (Hy' & Hm' & Hd' & Hh' & Hmi' & Hs' & Hu') E.
  unfold strftime in E.
  repeat match type of E with
  | zfill ?w (digits ?n) ++ _ = zfill ?w (digits ?m) ++ _ =>
      let E1 := fresh "E" in
      apply app_inj_length in E;
        [destruct E as [E1 E]; apply zfill_inj in E1
        | rewrite !zfill_length by (cbn; lia); reflexivity]
  | lit "T" ++ _ = lit "T" ++ _ => cbn [lit list_ascii_of_string app] in E; injection E as E
  end.
  destruct t, t'. cbn [year month day hour minute second microsecond] in *.
  congruence.
Qed.

(** X14. The name of the stored file determines the instant and the final
    component of the filename. For two requests served from the same
    directory, at instants of the years 1000 to 9999, the paths written are
    the same only if the clock showed the same microsecond and the
    filenames have the same final component; the stamp always has 22
    characters. Two uploads overwrite each other in no other case. *)
Theorem stored_name_unique (w w' : World) (file file' : UploadFile) :
  valid (utcnow w) -> valid (utcnow w') -> here w = here w' ->
  saved_path w file = saved_path w' file' ->
  utcnow w = utcnow w'
  /\ Path.name (Path.parse (filename file))
     = Path.name (Path.parse (filename file'))
  /\ List.length (strftime (utcnow w)) = 22.
Proof.
  intros Hv Hv' Hh E. rewrite !saved_path_parts in E.
  unfold uploads_dir in E. rewrite Hh in E. injection E as E.
  apply app_inv_head in E. injection E as E. unfold safe_name in E.
  apply app_inj_length in E;
    [|rewrite !strftime_length by assumption; reflexivity].
  destruct E as [Et En]. injection En as En.
  split; [exact (strftime_inj Hv Hv' Et)|].
  split; [exact En | exact (strftime_length Hv)].
Qed.

Lemma stored_name_unique_witness :
  let w := sample_world climbing_png (ok_response (completion (VStr (lit "ok")))) in
  let other := png "passwd" (list_byte_of_string "JPG") in
  let w' := sample_world other (ok_response (completion (VStr (lit "ok")))) in
  saved_path w climbing_png = saved_path w' other
  /\ utcnow w = utcnow w'
  /\ Path.name (Path.parse (filename climbing_png))
     = Path.name (Path.parse (filename other))
  /\ List.length (strftime (utcnow w)) = 22.
Proof.
  intros w other w'.
  assert (E : saved_path w climbing_png = saved_path w' other) by reflexivity.
  split; [exact E|].
  apply (@stored_name_unique w w' climbing_png other);
    [vm_compute; intuition (discriminate || auto)
    | vm_compute; intuition (discriminate || auto)
    | reflexivity | exact E].
Defined.

(** ** The preamble [based on the] *)

Section Heads.

Variable fl : flags.

(** A position that a pattern reaches is the one it started from, or
    follows a character. *)
Lemma runs_origin (k : item) (s : str) :
  forall p c', In c' (runs fl k p s) ->
               c' = (p, s) \/ exists x, fst c' = Some x.
Proof.
  induction s as [|x s IH]; intros p c'; cbn [runs].
  - intros [<-|[]]. left; reflexivity.
  - intros [<-|H]; [left; reflexivity|].
    destruct (accepts fl k x); [|destruct H].
    destruct (IH _ _ H) as [->|E]; right; [exists x; reflexivity | exact E].
Qed.

Lemma exec_origin (r : regex) :
  forall c c', In c' (exec fl r c) -> c' = c \/ exists x, fst c' = Some x.
Proof.
  induction r as [k | | | | r1 IH1 r2 IH2 | r1 IH1 r2 IH2 | greedy lo k |];
    intros [p s] c'; cbn [exec fst snd].
  - destruct s as [|x s]; [intros []|].
    destruct (accepts fl k x); [|intros []].
    intros [<-|[]]. right. exists x. reflexivity.
  - destruct p; [intros []|]. intros [<-|[]]. left; reflexivity.
  - destruct s as [|x [|y s]]; [| |intros []].
    + intros [<-|[]]. left; reflexivity.
    + destruct (Ascii.eqb x LF); [|intros []].
      intros [<-|[]]. left; reflexivity.
  - destruct (xorb _ _); [|intros []]. intros [<-|[]]. left; reflexivity.
  - intros H. apply in_flat_map in H as (c1 & H1 & H2).
    destruct (IH1 _ _ H1) as [->|[x E]]; [exact (IH2 _ _ H2)|].
    destruct (IH2 _ _ H2) as [->|E2]; right; [exists x; exact E | exact E2].
  - intros H. apply in_app_or in H as [H|H]; [exact (IH1 _ _ H) | exact (IH2 _ _ H)].
  - intros H.
    assert (Hr : In c' (runs fl k p s))
      by (destruct greedy; [apply in_rev in H|]; exact (skipn_in _ _ _ H)).
    exact (runs_origin _ _ _ _ Hr).
  - intros [<-|[]]. left; reflexivity.
Qed.

(** Without [must_advance] the match is the first result of the pattern. *)
Lemma match_at_first (r : regex) (c : pos) :
  match_at fl r false c = hd_error (exec fl r c).
Proof. unfold match_at. destruct (exec fl r c); reflexivity. Qed.

(** The first results compose, when what follows does not look behind. *)
Lemma first_cat (r1 r2 : regex) (p : option ascii) (s t u : str) :
  prev_free r2 = true ->
  hd_error (map snd (exec fl r1 (p, s))) = Some t ->
  hd_error (map snd (exec fl r2 (None, t))) = Some u ->
  hd_error (map snd (exec fl (Cat r1 r2) (p, s))) = Some u.
Proof.
  intros H2 E1 E2. rewrite exec_cat.
  destruct (exec fl r1 (p, s)) as [|[q t'] l]; [discriminate E1|].
  cbn [map snd hd_error] in E1. injection E1 as ->.
  cbn [flat_map]. rewrite map_app.
  assert (Hh : forall a b c : list str,
             a = b -> hd_error b = Some u -> hd_error (a ++ c) = Some u).
  { intros a b c -> Hb. destruct b; [discriminate Hb | exact Hb]. }
  exact (Hh _ _ _ (exec_prev fl r2 H2 q None t) E2).
Qed.

Lemma first_word (w pfx t : str) (p : option ascii) :
  Forall2 (fun c x => accepts fl (Chr c) x = true) w pfx ->
  hd_error (map snd (exec fl (word w) (p, pfx ++ t))) = Some t.
Proof. intros H. rewrite (@exec_word fl w pfx t p H). reflexivity. Qed.

(** The positions after a run of whitespace: the last one is its end. *)
Lemma runs_spaces (ws t : str) :
  forallb isspace ws = true -> lstrip t = t ->
  forall p, exists l q,
    runs fl Space p (ws ++ t) = l ++ [(q, t)] /\ List.length l = List.length ws.
Proof.
  intros Hw Ht. induction ws as [|x ws IH]; intros p.
  - exists [], p. split; [|reflexivity]. cbn [app].
    destruct t as [|y t]; [reflexivity|]. cbn [runs accepts].
    cbn [lstrip] in Ht. destruct (isspace y); [|reflexivity].
    exfalso. pose proof (lstrip_suffix t) as (ws & E & _).
    apply (f_equal (@List.length _)) in E. rewrite Ht in E.
    rewrite length_app in E. cbn [List.length] in E. lia.
  - cbn [forallb] in Hw. apply andb_true_iff in Hw as [Hx Hw].
    destruct (IH Hw (Some x)) as (l & q & E & Hl).
    exists ((p, x :: ws ++ t) :: l), q. cbn [app runs accepts].
    rewrite Hx, E. split; [reflexivity|]. cbn [List.length]. lia.
Qed.

(** A greedy [\s*] or [\s+] first takes the whole run of whitespace. *)
Lemma first_spaces (lo : nat) (ws t : str) (p : option ascii) :
  forallb isspace ws = true -> lstrip t = t -> lo <= List.length ws ->
  hd_error (map snd (exec fl (Repeat true lo Space) (p, ws ++ t))) = Some t.
Proof.
  intros Hw Ht Hlo. cbn [exec fst snd].
  destruct (@runs_spaces ws t Hw Ht p) as (l & q & -> & Hl).
  rewrite skipn_app.
  replace (lo - List.length l) with 0 by lia.
  cbn [skipn]. rewrite rev_unit. reflexivity.
Qed.

End Heads.

Lemma accepts_lf (x : ascii) : accepts flags_is (Chr LF) x = Ascii.eqb x LF.
Proof. by_cases_on x. Qed.

Lemma isspace_lower (x : ascii) : isspace (lower x) = isspace x.
Proof. by_cases_on x. Qed.

Lemma lower_space (x : ascii) : lower x = " "%char -> x = " "%char.
Proof.
  destruct x as [[] [] [] [] [] [] [] []]; vm_compute; intros H;
    first [reflexivity | discriminate H].
Qed.

Lemma exec_at_begin (fl : flags) (r : regex) (s : str) :
  exec fl (Cat AtBegin r) (None, s) = exec fl r (None, s).
Proof. cbn [exec fst flat_map]. apply app_nil_r. Qed.

Lemma search_hit (fl : flags) (r : regex) (ma : bool) (p : option ascii)
    (s : str) (c : pos) :
  match_at fl r ma (@pair _ str p s) = Some c ->
  search fl r ma p s = Some ([], c).
Proof. intros H. destruct s; cbn [search]; rewrite H; reflexivity. Qed.

(** A lazy [.*?] before [(?:\n\n|$)] stops at the first blank line, at a
    final newline or at the end. *)
Lemma first_break (s : str) :
  forall p,
    hd_error (map snd (exec flags_is (Cat (lazy_star Dot) (Cat BREAK Eps))
                         (p, s)))
    = Some (after_break s).
Proof.
  assert (Hstep : forall p x s',
            exec flags_is (Cat (lazy_star Dot) (Cat BREAK Eps)) (p, x :: s')
            = exec flags_is (Cat BREAK Eps) (p, x :: s')
              ++ exec flags_is (Cat (lazy_star Dot) (Cat BREAK Eps))
                   (Some x, s'))
    by reflexivity.
  induction s as [|x s IH]; intros p; [reflexivity|].
  rewrite Hstep, map_app, exec_then_eps. specialize (IH (Some x)).
  revert IH.
  generalize (map snd (exec flags_is (Cat (lazy_star Dot) (Cat BREAK Eps))
                         (Some x, s))) as rest.
  intros rest IH. unfold BREAK. cbn [exec word snd fst after_break].
  rewrite accepts_lf.
  destruct (Ascii.eqb x LF) eqn:Ex.
  - apply Ascii.eqb_eq in Ex. subst x.
    destruct s as [|y s]; [reflexivity|].
    cbn [flat_map exec snd app]. rewrite accepts_lf.
    destruct (Ascii.eqb y LF); [reflexivity | exact IH].
  - destruct s as [|y s]; exact IH.
Qed.

Lemma after_break_length (s : str) :
  List.length (after_break s) <= List.length s.
Proof.
  induction s as [|x s IH]; [reflexivity|]. cbn [after_break].
  destruct (Ascii.eqb x LF); [|cbn [List.length]; lia].
  destruct s as [|y s]; [reflexivity|].
  destruct (Ascii.eqb y LF); cbn [List.length] in *; lia.
Qed.

Lemma after_break_paragraph (s : str) :
  one_paragraph s = true -> after_break s = [] \/ after_break s = [LF].
Proof.
  induction s as [|x s IH]; [left; reflexivity|].
  cbn [one_paragraph after_break]. intros H.
  apply andb_true_iff in H as [H1 H2].
  destruct (Ascii.eqb x LF); [|exact (IH H2)].
  destruct s as [|y s]; [right; reflexivity|].
  destruct (Ascii.eqb y LF); [discriminate H1 | exact (IH H2)].
Qed.

(** The pattern matches a text that starts with the words, up to where the
    paragraph ends. *)
Lemma based_on_match (opening tail : str) :
  map lower opening = lit "based on the " ->
  hd_error (map snd (exec flags_is BASED_ON (None, opening ++ tail)))
  = Some (after_break (lstrip tail)).
Proof.
  intros Ho.
  do 13 (destruct opening as [|? opening]; [discriminate Ho|]).
  destruct opening; [|discriminate Ho].
  change (lit "based on the ")
    with ["b"; "a"; "s"; "e"; "d"; " "; "o"; "n"; " "; "t"; "h"; "e"; " "]%char
    in Ho.
  cbn [map] in Ho.
  injection Ho as H1 H2 H3 H4 H5 H6 H7 H8 H9 H10 H11 H12 H13.
  apply lower_space in H6, H9, H13. subst.
  destruct (lstrip_suffix tail) as (ws & Et & Hws).
  pose proof (lstrip_idem tail) as Hu.
  revert Et Hu. generalize (lstrip tail) as u. intros u -> Hu.
  assert (Hn : forall x c s, lower x = c -> isspace c = false ->
                             lstrip (x :: s) = x :: s).
  { intros x c s Hx Hc. apply lstrip_id.
    rewrite <- isspace_lower, Hx. exact Hc. }
  assert (Hw : forall w pfx, map lower pfx = w -> map lower w = w ->
                 Forall2 (fun c x => accepts flags_is (Chr c) x = true) w pfx).
  { intros w pfx Hp Hl. apply caseless_word. congruence. }
  change BASED_ON with
    (Cat AtBegin (Cat (star Space) (Cat (word (lit "based"))
      (Cat (plus Space) (Cat (word (lit "on")) (Cat (plus Space)
        (Cat (word (lit "the")) (Cat (plus Space)
          (Cat (lazy_star Dot) (Cat BREAK Eps)))))))))).
  rewrite exec_at_begin.
  match goal with |- context [(None, ?s)] => set (text := s) end.
  apply first_cat with (t := text); [reflexivity | |].
  { apply (@first_spaces flags_is 0 [] text None); [reflexivity | | cbn; lia].
    exact (Hn _ _ _ H1 eq_refl). }
  subst text. cbn [app].
  match goal with |- context [(None, ?a1 :: ?a2 :: ?a3 :: ?a4 :: ?a5 :: ?s)] =>
    change (a1 :: a2 :: a3 :: a4 :: a5 :: s) with ([a1; a2; a3; a4; a5] ++ s);
    apply first_cat with (t := s);
      [reflexivity
      | apply first_word, Hw; [cbn [map]; rewrite_letters | reflexivity] |]
  end.
  match goal with |- context [(None, " "%char :: ?s)] =>
    apply first_cat with (t := s);
      [reflexivity
      | apply (@first_spaces flags_is 1 [" "%char] s None);
          [reflexivity | exact (Hn _ _ _ H7 eq_refl) | cbn; lia] |]
  end.
  match goal with |- context [(None, ?a1 :: ?a2 :: ?s)] =>
    change (a1 :: a2 :: s) with ([a1; a2] ++ s);
    apply first_cat with (t := s);
      [reflexivity
      | apply first_word, Hw; [cbn [map]; rewrite_letters | reflexivity] |]
  end.
  match goal with |- context [(None, " "%char :: ?s)] =>
    apply first_cat with (t := s);
      [reflexivity
      | apply (@first_spaces flags_is 1 [" "%char] s None);
          [reflexivity | exact (Hn _ _ _ H10 eq_refl) | cbn; lia] |]
  end.
  match goal with |- context [(None, ?a1 :: ?a2 :: ?a3 :: ?s)] =>
    change (a1 :: a2 :: a3 :: s) with ([a1; a2; a3] ++ s);
    apply first_cat with (t := s);
      [reflexivity
      | apply first_word, Hw; [cbn [map]; rewrite_letters | reflexivity] |]
  end.
  apply first_cat with (t := u); [reflexivity | | apply first_break].
  apply (@first_spaces flags_is 1 (" "%char :: ws) u None);
    [cbn [forallb]; rewrite Hws; reflexivity | exact Hu | cbn; lia].
Qed.

(** The replacement removes the preamble and nothing after it. *)
Lemma sub_based_on (opening tail : str) :
  map lower opening = lit "based on the " ->
  sub flags_is BASED_ON [] (opening ++ tail) = after_break (lstrip tail).
Proof.
  intros Ho. pose proof (@based_on_match opening tail Ho) as Hm.
  assert (Hl : List.length opening = 13)
    by (rewrite <- (length_map lower), Ho; reflexivity).
  assert (Hlen : List.length (after_break (lstrip tail))
                 < List.length (opening ++ tail)).
  { pose proof (after_break_length (lstrip tail)).
    destruct (lstrip_suffix tail) as (ws & E & _).
    apply (f_equal (@List.length _)) in E.
    rewrite length_app in *. lia. }
  unfold sub.
  match goal with |- context [sub_loop _ (?n + 2)] =>
    replace (n + 2) with (S (n + 1)) by lia;
    generalize (n + 1) as fuel
  end.
  intros fuel. revert Hm Hlen. generalize (opening ++ tail) as text.
  intros text Hm Hlen. cbn [sub_loop].
  assert (Hs : exists c : pos,
            search flags_is BASED_ON false None text = Some ([], c)
            /\ snd c = after_break (lstrip tail)
            /\ exists x, fst c = Some x).
  { pose proof (@match_at_first flags_is BASED_ON (None, text)) as Hf.
    pose proof (@exec_origin flags_is BASED_ON (None, text)) as Hor.
    destruct (exec flags_is BASED_ON (None, text)) as [|c l];
      [discriminate Hm|].
    cbn [map hd_error] in Hm, Hf. injection Hm as Hm.
    exists c. split; [|split; [exact Hm|]].
    - apply search_hit. exact Hf.
    - destruct (Hor c (or_introl eq_refl)) as [->|Hx]; [|exact Hx].
      cbn [snd] in Hm. rewrite <- Hm in Hlen. lia. }
  destruct Hs as (c & -> & Ec & x & Ex). cbn [app]. rewrite Ec, Ex.
  destruct fuel as [|fuel]; [reflexivity|]. cbn [sub_loop].
  change BASED_ON with
    (Cat AtBegin (Cat (star Space) (Cat (word (lit "based"))
      (Cat (plus Space) (Cat (word (lit "on")) (Cat (plus Space)
        (Cat (word (lit "the")) (Cat (plus Space)
          (Cat (lazy_star Dot) (Cat BREAK Eps)))))))))).
  rewrite search_anchored. reflexivity.
Qed.

(** X15. An answer that starts with the words [based on the] (in any case,
    with one blank between them and after them) loses its first paragraph:
    the cleanup keeps what follows the first blank line after the words,
    with its runs of newlines shortened and its ends trimmed. An answer of
    one paragraph (no two newlines in a row after the words) is cleaned to
    the empty message. *)
Theorem based_on_paragraph_dropped (opening tail : str) :
  map lower opening = lit "based on the " -> ~ In "<"%char tail ->
  clean_text (opening ++ tail) = strip (squeeze 0 (after_break (lstrip tail)))
  /\ (one_paragraph (lstrip tail) = true -> clean_text (opening ++ tail) = []).
Proof.
  intros Ho Ht.
  assert (E : clean_text (opening ++ tail)
              = strip (squeeze 0 (after_break (lstrip tail)))).
  { assert (Hlt : ~ In "<"%char (opening ++ tail)).
    { intros H. apply in_app_or in H as [H|H]; [|exact (Ht H)].
      apply (in_map lower) in H. rewrite Ho in H.
      vm_compute in H. intuition discriminate. }
    pose proof (@sub_based_on opening tail Ho) as Hb.
    unfold BASED_ON, meta_patterns in Hb. cbn [nth] in Hb.
    destruct opening as [|a opening]; [discriminate Ho|].
    assert (Ha : lower a = "b"%char) by (injection Ho as Ha _; exact Ha).
    assert (Hf : forall c, In c [ "t"; "i" ]%char ->
                   match lstrip ((a :: opening) ++ tail) with
                   | x :: _ => accepts flags_is (Chr c) x = false
                   | [] => True
                   end).
    { intros c Hc. cbn [app]. rewrite lstrip_id
        by (rewrite <- isspace_lower, Ha; reflexivity).
      cbn [accepts ignorecase flags_is]. rewrite Ha.
      destruct Hc as [<-|[<-|[]]]; reflexivity. }
    assert (Hs : forall c, In c [ "t"; "i" ]%char ->
                   forall x, isspace x = true ->
                             accepts flags_is (Chr c) x = false).
    { intros c Hc x Hx. destruct (space_not_letter x Hx) as (H1 & H2 & _).
      destruct Hc as [<-|[<-|[]]]; assumption. }
    unfold clean_text. rewrite (sub_no_match _ _ _ _ (@think_absent _ Hlt)).
    unfold meta_patterns. cbn [fold_left].
    repeat match goal with
    | |- context [sub flags_is
                    (seq (AtBegin :: star Space :: word (lit ?s) :: ?m))
                    [] ((a :: opening) ++ tail)] =>
        let c := eval vm_compute in (hd "x"%char (lit s)) in
        let w := eval vm_compute in (tl (lit s)) in
        match c with
        | "b"%char => fail 1
        | _ =>
          rewrite (@sub_no_match flags_is
                     (seq (AtBegin :: star Space :: word (lit s) :: m)) []
                     ((a :: opening) ++ tail))
            by (unfold matches;
                change (seq (AtBegin :: star Space :: word (lit s) :: m))
                  with (Cat AtBegin (Cat (star Space)
                          (Cat (Cat (One (Chr c)) (word w)) (seq m))));
                rewrite (@search_preamble_rejected flags_is c (word w) (seq m)
                           ((a :: opening) ++ tail))
                  by (first [apply Hs | apply Hf]; cbn; tauto);
                reflexivity)
        end
    end.
    rewrite Hb, sub_blanks. reflexivity. }
  split; [exact E|]. intros Hp. rewrite E.
  destruct (@after_break_paragraph _ Hp) as [-> | ->]; reflexivity.
Qed.

Lemma based_on_paragraph_dropped_witness :
  clean_text (lit "Based on the image, the leaf shows rust pustules.") = []
  /\ clean_text (lit "BASED ON THE  photo:" ++ [LF; LF] ++ lit "Leaf rust.")
     = lit "Leaf rust.".
Proof.
  split.
  - destruct (@based_on_paragraph_dropped (lit "Based on the ")
                (lit "image, the leaf shows rust pustules.") eq_refl) as [_ H].
    + vm_compute. intuition discriminate.
    + apply H. reflexivity.
  - destruct (@based_on_paragraph_dropped (lit "BASED ON THE ")
                (lit " photo:" ++ [LF; LF] ++ lit "Leaf rust.") eq_refl) as [H _].
    + vm_compute. intuition discriminate.
    + exact H.
Defined.
